(** * api-wrapper/app.js: job registry, log relay, identifier discovery,
      process supervision and the stop cascade.

    A shallow embedding of [src/api-wrapper/app.js].  JavaScript strings are
    [string]s (code units below 256), millisecond timestamps are [Z],
    the [JOBS] and [CHILDREN] maps are [gmap]s keyed by the job id, and every
    call that leaves the process (docker, HTTP, the file system, signals) is
    answered by an oracle of the environment record and written to an
    effect trace. *)

From Stdlib Require Import ZArith String Ascii List Bool Lia.
From stdpp Require Import base option list gmap strings pretty.
Import ListNotations.

Local Open Scope Z_scope.

(** ** Regular expressions

    The fragment of ECMAScript regular expressions the file uses: literal
    text, character classes with greedy quantifiers, one capturing group,
    alternation.  Matching is backtracking, leftmost, greedy, as
    [String.prototype.match] without the [g] flag. *)

Module Regex.

Definition chars := list ascii.

Definition code (c : ascii) : nat := nat_of_ascii c.

Definition in_range (lo hi c : ascii) : bool :=
  (code lo <=? code c)%nat && (code c <=? code hi)%nat.

Definition to_upper (c : ascii) : ascii :=
  if in_range "a" "z" c then ascii_of_nat (code c - 32) else c.

Definition to_lower (c : ascii) : ascii :=
  if in_range "A" "Z" c then ascii_of_nat (code c + 32) else c.

(** A character class [[...]] or [[^...]] given by its ranges. *)
Record class := Cls { neg : bool; ranges : list (ascii * ascii) }.

Definition in_ranges (rs : list (ascii * ascii)) (c : ascii) : bool :=
  existsb (fun r => in_range (fst r) (snd r) c) rs.

(** With the [i] flag a character is in a class when some member has the
    same canonical (upper-case) form. *)
Definition class_mem (ci : bool) (k : class) (c : ascii) : bool :=
  let hit := in_ranges (ranges k) c
             || (ci && (in_ranges (ranges k) (to_upper c)
                        || in_ranges (ranges k) (to_lower c))) in
  if neg k then negb hit else hit.

Definition char_eq (ci : bool) (a b : ascii) : bool :=
  if ci then Ascii.eqb (to_upper a) (to_upper b) else Ascii.eqb a b.

Inductive regex :=
| Chars (s : string)                              (* literal text *)
| Rep (k : class) (min : nat) (max : option nat)  (* k{min,max}, greedy *)
| Group (r : regex)                               (* ( r ) *)
| Seq (r1 r2 : regex)
| Alt (r1 r2 : regex).

Fixpoint strip_prefix (ci : bool) (p inp : chars) : option chars :=
  match p, inp with
  | [], _ => Some inp
  | a :: p', b :: inp' => if char_eq ci a b then strip_prefix ci p' inp' else None
  | _ :: _, [] => None
  end.

Section Match.
Context {R : Type}.

(** Greedy repetition of a one-character test: the longest run first,
    shorter ones on backtracking. *)
Fixpoint rep_greedy (p : ascii -> bool) (min : nat) (max : option nat)
         (inp : chars) (k : chars -> option R) {struct inp} : option R :=
  let stop := match min with O => k inp | S _ => None end in
  match inp with
  | c :: rest =>
      if p c && negb (bool_decide (max = Some O)) then
        match rep_greedy p (Nat.pred min) (Nat.pred <$> max) rest k with
        | Some x => Some x
        | None => stop
        end
      else stop
  | [] => stop
  end.

Fixpoint run (ci : bool) (r : regex) (inp : chars) (cap : option chars)
         (k : chars -> option chars -> option R) {struct r} : option R :=
  match r with
  | Chars s =>
      match strip_prefix ci (list_ascii_of_string s) inp with
      | Some rest => k rest cap
      | None => None
      end
  | Rep c min max => rep_greedy (class_mem ci c) min max inp (fun rest => k rest cap)
  | Group r1 =>
      run ci r1 inp cap
          (fun rest _ => k rest (Some (take (length inp - length rest)%nat inp)))
  | Seq r1 r2 => run ci r1 inp cap (fun rest cap' => run ci r2 rest cap' k)
  | Alt r1 r2 =>
      match run ci r1 inp cap k with
      | Some x => Some x
      | None => run ci r2 inp cap k
      end
  end.
End Match.

(** A match: what is left of the input after it, and group 1. *)
Record result := Res { rest : chars; group1 : option chars }.

(** A match starting at the head of [inp]. *)
Definition exec_at (ci : bool) (r : regex) (inp : chars) : option result :=
  run ci r inp None (fun rest cap => Some (Res rest cap)).

(** The leftmost match. *)
Fixpoint search (ci : bool) (r : regex) (inp : chars) : option result :=
  match exec_at ci r inp with
  | Some x => Some x
  | None => match inp with
            | [] => None
            | _ :: tl => search ci r tl
            end
  end.

(** [s.replace] with the [g] flag and an empty replacement: every match is dropped, scanning left to
    right; [skip] counts characters of the current match still to drop. *)
Fixpoint remove_go (ci : bool) (r : regex) (skip : nat) (inp : chars) : chars :=
  match inp with
  | [] => []
  | c :: tl =>
      match skip with
      | S n => remove_go ci r n tl
      | O =>
          match exec_at ci r inp with
          | Some x =>
              match (length inp - length (rest x))%nat with
              | S n => remove_go ci r n tl
              | O => c :: remove_go ci r O tl
              end
          | None => c :: remove_go ci r O tl
          end
      end
  end.

Definition remove_all (ci : bool) (r : regex) (s : string) : string :=
  string_of_list_ascii (remove_go ci r O (list_ascii_of_string s)).

(** [s.match(r)] then [m[1]]. *)
Definition match_group1 (ci : bool) (r : regex) (s : string) : option string :=
  match search ci r (list_ascii_of_string s) with
  | Some x => Some (string_of_list_ascii (default [] (group1 x)))
  | None => None
  end.

(** [/^k{n}$/.test(s)]. *)
Definition test_whole (ci : bool) (r : regex) (s : string) : bool :=
  match run ci r (list_ascii_of_string s) None
            (fun rest _ => match rest with [] => Some tt | _ => None end) with
  | Some _ => true
  | None => false
  end.

End Regex.

Import Regex.

(** ** Utils *)

Definition ESC : ascii := "027"%char.
Definition DQ : ascii := "034"%char.
Definition LF : ascii := "010"%char.

(** [/\x1b\[[0-9;]*m/g] *)
Definition SGR : regex :=
  Seq (Chars (String ESC "["))
      (Seq (Rep (Cls false [("0", "9"); (";", ";")]%char) 0 None) (Chars "m")).

Definition stripAnsi (s : string) : string := remove_all false SGR s.

(** [[A-F0-9-]] *)
Definition hexdash : class := Cls false [("A", "F"); ("0", "9"); ("-", "-")]%char.
(** [[^A-F0-9]] *)
Definition nonhex : class := Cls true [("A", "F"); ("0", "9")]%char.
(** [\s], the white space below code unit 256 *)
Definition space : class := Cls false [("009", "013"); (" ", " "); ("160", "160")]%char.
(** [([A-F0-9-]{36})] *)
Definition uuid36 : regex := Group (Rep hexdash 36 (Some 36%nat)).

Definition quoted (s : string) : string := String DQ (s +:+ String DQ EmptyString).

Definition UUID_PATTERNS : list regex :=
  [ (* /\/recordings\/([A-F0-9-]{36})\//i *)
    Seq (Chars "/recordings/") (Seq uuid36 (Chars "/"));
    (* /bot UUID[^A-F0-9]*([A-F0-9-]{36})/i *)
    Seq (Chars "bot UUID") (Seq (Rep nonhex 0 None) uuid36);
    (* /session ID[: ]+([A-F0-9-]{36})/i *)
    Seq (Chars "session ID")
        (Seq (Rep (Cls false [(":", ":"); (" ", " ")]%char) 1 None) uuid36);
    (* /"bot_uuid"\s*:\s*"([A-F0-9-]{36})"/i *)
    Seq (Chars (quoted "bot_uuid"))
        (Seq (Rep space 0 None)
             (Seq (Chars ":")
                  (Seq (Rep space 0 None)
                       (Seq (Chars (String DQ EmptyString)) (Seq uuid36 (Chars (String DQ EmptyString)))))));
    (* /"id"\s*:\s*"([A-F0-9-]{36})"/i *)
    Seq (Chars (quoted "id"))
        (Seq (Rep space 0 None)
             (Seq (Chars ":")
                  (Seq (Rep space 0 None)
                       (Seq (Chars (String DQ EmptyString)) (Seq uuid36 (Chars (String DQ EmptyString)))))))
  ].

(** [for (const r of UUID_PATTERNS) { const m = s.match(r); if (m) return m[1]; }] *)
Fixpoint first_match (rs : list regex) (s : string) : option string :=
  match rs with
  | [] => None
  | r :: rs' =>
      match match_group1 true r s with
      | Some u => Some u
      | None => first_match rs' s
      end
  end.

Definition extractUuidFrom (line : string) : option string :=
  let s := stripAnsi line in
  first_match UUID_PATTERNS s.

(** [/^[A-F0-9-]{36}$/i.test(name)] *)
Definition isUuidDirName (name : string) : bool :=
  test_whole true (Rep hexdash 36 (Some 36%nat)) name.

(** ** Values of the JavaScript side *)

(** [!!s] for a string that may be [undefined]. *)
Definition truthy_str (o : option string) : bool :=
  match o with
  | Some s => negb (String.eqb s EmptyString)
  | None => false
  end.

(** [!!n] for a number that may be [undefined]. *)
Definition truthy_num (o : option Z) : bool :=
  match o with
  | Some n => negb (n =? 0)
  | None => false
  end.

(** [a || b] on numbers. *)
Definition or_num (a b : option Z) : option Z := if truthy_num a then a else b.

(** [a || b] on strings with a default that is a string. *)
Definition or_str (a : option string) (b : string) : string :=
  if truthy_str a then default b a else b.

(** A key of the patch wins over the same key of the stored object. *)
Definition ovr {A} (p j : option A) : option A :=
  match p with
  | Some _ => p
  | None => j
  end.

Inductive Status := Pending | Running | Stopping | Done | Error | Timeout.

(** The job object.  A field is [None] when the key is absent or holds
    [undefined], which read alike everywhere in the file; [signal]
    distinguishes [null] ([Some None]) from a signal name. *)
Module Job.
Record t := mk {
  id : option string;
  pid : option Z;
  status : option Status;
  createdAt : option Z;
  updatedAt : option Z;
  startedAt : option Z;
  meeting_url : option string;
  bot_name : option string;
  extra : option (list string);
  uuid : option string;
  containerName : option string;
  hostPort8080 : option Z;
  recordings : option string;
  recordingsDir : option string;
  exitCode : option Z;
  signal : option (option string);
  error : option string;
  logs : option (list string);
  clients : option (list nat)
}.

(** [{}] *)
Definition empty : t :=
  mk None None None None None None None None None None
     None None None None None None None None None.

(** [{ updatedAt: now, ...j, ...patch }] *)
Definition merge (now : Z) (j patch : t) : t :=
  {| id := ovr (id patch) (id j);
     pid := ovr (pid patch) (pid j);
     status := ovr (status patch) (status j);
     createdAt := ovr (createdAt patch) (createdAt j);
     updatedAt := ovr (updatedAt patch) (ovr (updatedAt j) (Some now));
     startedAt := ovr (startedAt patch) (startedAt j);
     meeting_url := ovr (meeting_url patch) (meeting_url j);
     bot_name := ovr (bot_name patch) (bot_name j);
     extra := ovr (extra patch) (extra j);
     uuid := ovr (uuid patch) (uuid j);
     containerName := ovr (containerName patch) (containerName j);
     hostPort8080 := ovr (hostPort8080 patch) (hostPort8080 j);
     recordings := ovr (recordings patch) (recordings j);
     recordingsDir := ovr (recordingsDir patch) (recordingsDir j);
     exitCode := ovr (exitCode patch) (exitCode j);
     signal := ovr (signal patch) (signal j);
     error := ovr (error patch) (error j);
     logs := ovr (logs patch) (logs j);
     clients := ovr (clients patch) (clients j) |}.

Definition with_logs (l : list string) (j : t) : t :=
  mk (id j) (pid j) (status j) (createdAt j) (updatedAt j) (startedAt j)
     (meeting_url j) (bot_name j) (extra j) (uuid j) (containerName j)
     (hostPort8080 j) (recordings j) (recordingsDir j) (exitCode j)
     (signal j) (error j) (Some l) (clients j).


(** The patches the file writes. *)
Definition p_status (s : Status) : t :=
  mk None None (Some s) None None None None None None None
     None None None None None None None None None.
Definition p_uuid (u : string) : t :=
  mk None None None None None None None None None (Some u)
     None None None None None None None None None.
Definition p_containerName (c : string) : t :=
  mk None None None None None None None None None None
     (Some c) None None None None None None None None.
Definition p_hostPort8080 (p : Z) : t :=
  mk None None None None None None None None None None
     None (Some p) None None None None None None None.
Definition p_running (p : option Z) : t :=
  mk None p (Some Running) None None None None None None None
     None None None None None None None None None.
Definition p_timeout (reason : string) : t :=
  mk None None (Some Timeout) None None None None None None None
     None None None None None None (Some reason) None None.
Definition p_child_error (err : string) : t :=
  mk None None (Some Error) None None None None None None None
     None None None None None None (Some err) None None.
Definition p_done (rec : string) : t :=
  mk None None (Some Done) None None None None None None None
     None None (Some rec) None (Some 0) (Some None) None None None.
Definition p_error (code : Z) (sig : option string) (reason : string) : t :=
  mk None None (Some Error) None None None None None None None
     None None None None (Some code) (Some sig) (Some reason) None None.
End Job.

(** The handle [spawn] returns; [pid] is [undefined] when the launch failed. *)
Record Child := mkChild { child_pid : option Z }.

(** The variables the handlers of one job close over: the two clocks of the
    timeout guard, whether its interval is still set, and what the "exit"
    event recorded. *)
Record Closure := mkClosure {
  lastActivity : Z;
  guardStartedAt : Z;
  armed : bool;
  exitCodeFinal : option Z;
  exitSignalFinal : option string
}.

Inductive Url :=
| UrlBase (base : string)          (* `${MEET_BOT_BASE}/stop_record` *)
| UrlHostPort (port : Z)           (* http://127.0.0.1:<port>/stop_record *)
| UrlContainerIP (ip : string).    (* http://<ip>:8080/stop_record *)

(** [{ bot_id?, meeting_url? }] *)
Record Payload := mkPayload { bot_id : option string; p_meeting_url : option string }.

Inductive Tool := ToolNode | ToolPython | ToolCurl | ToolWget | ToolBusybox.

(** What leaves the process, in the order it happens. *)
Inductive Effect :=
| FxHttpPost (u : Url) (p : Payload)
| FxDockerExec (tool : Tool) (container : string)
| FxDockerPort (container : string)
| FxDockerInspectIP (container : string)
| FxDockerStop (target : string)
| FxProcessKill (pid : option Z) (sig : string)
| FxKillAfter (ms : Z) (pid : option Z) (sig : string)
| FxChildKill (job : string) (sig : string)
| FxRetryHostPort (ms : Z) (job container : string) (attempt : nat)
| FxSleep (ms : Z)
| FxScan (dir : string).

(** Process environment and constants read at start-up. *)
Record Config := mkConfig {
  API_KEY : string;
  MEET_BOT_BASE : string;
  ALLOW_DOCKER_STOP : bool;
  BOT_IDLE_TIMEOUT_MS : Z;
  BOT_MAX_TIMEOUT_MS : Z;
  DEFAULT_RECORDINGS_DIR : string
}.

(** The answers of the outside world. *)
Record World := mkWorld {
  (* axios post: the response body, or a thrown error *)
  httpPost : Url -> Payload -> option string;
  (* spawnSync("docker", ["exec", ...]): stdout when the status is 0 *)
  dockerExec : Tool -> string -> Payload -> option string;
  (* dockerGetHostPort8080: a finite port > 0, or undefined *)
  dockerGetHostPort8080 : string -> option Z;
  (* dockerGetIP: a non-empty address, or undefined *)
  dockerGetIP : string -> option string;
  (* execSync(`docker stop <c>`) returned without throwing *)
  dockerStop : string -> bool;
  (* process.kill(pid, sig) returned without throwing *)
  processKill : option Z -> string -> bool;
  (* fs.readdirSync(dir), or a thrown error *)
  readdirSync : string -> option (list string);
  (* fs.statSync(path.join(dir, name)).mtimeMs, or a thrown error *)
  mtimeMs : string -> string -> option Z
}.

Record State := mkState {
  JOBS : gmap string Job.t;
  CHILDREN : gmap string Child;
  CLOSURES : gmap string Closure;
  SINKS : gmap nat (list string);   (* what was written to each response *)
  FX : list Effect
}.

Definition set_JOBS (m : gmap string Job.t) (st : State) : State :=
  mkState m (CHILDREN st) (CLOSURES st) (SINKS st) (FX st).
Definition set_CHILDREN (m : gmap string Child) (st : State) : State :=
  mkState (JOBS st) m (CLOSURES st) (SINKS st) (FX st).
Definition set_CLOSURES (m : gmap string Closure) (st : State) : State :=
  mkState (JOBS st) (CHILDREN st) m (SINKS st) (FX st).
Definition set_SINKS (m : gmap nat (list string)) (st : State) : State :=
  mkState (JOBS st) (CHILDREN st) (CLOSURES st) m (FX st).
Definition emit (e : Effect) (st : State) : State :=
  mkState (JOBS st) (CHILDREN st) (CLOSURES st) (SINKS st) (FX st ++ [e]).

(** [JOBS.get(id) || {}] *)
Definition getJob (id : string) (st : State) : Job.t :=
  default Job.empty (JOBS st !! id).

(** ** In-memory stores *)

Definition setJob (now : Z) (id : string) (patch : Job.t) (st : State) : State * Job.t :=
  let j := getJob id st in
  let merged := Job.merge now j patch in
  (set_JOBS (<[id := merged]> (JOBS st)) st, merged).

Definition setJob_ (now : Z) (id : string) (patch : Job.t) (st : State) : State :=
  fst (setJob now id patch st).

Definition LOG_CAPACITY : nat := 5000.

(** [(j.logs ||= []).push(line); if (j.logs.length > 5000) j.logs.splice(0, j.logs.length - 5000)] *)
Definition push_capped (old : option (list string)) (line : string) : list string :=
  let l := default [] old ++ [line] in
  if (LOG_CAPACITY <? length l)%nat then drop (length l - LOG_CAPACITY)%nat l else l.

(** [`data: ${line}\n\n`] *)
Definition sse_frame (line : string) : string :=
  "data: " +:+ line +:+ String LF (String LF EmptyString).

(** [res.write(frame)] *)
Definition res_write (frame : string) (c : nat) (st : State) : State :=
  set_SINKS (<[c := default [] (SINKS st !! c) ++ [frame]]> (SINKS st)) st.

Definition pushLog (now : Z) (id : string) (line : string) (st : State) : State :=
  let '(st1, j) := setJob now id Job.empty st in
  (* j is the stored object: its logs array is updated in place *)
  let j' := Job.with_logs (push_capped (Job.logs j) line) j in
  let st2 := set_JOBS (<[id := j']> (JOBS st1)) st1 in
  foldl (fun s c => res_write (sse_frame line) c s) st2 (default [] (Job.clients j')).

(** ** Fallback scan of the recordings directory *)

(** [Array.prototype.sort] with a comparator: stable. *)
Fixpoint insert_by {A} (cmp : A -> A -> Z) (x : A) (l : list A) : list A :=
  match l with
  | [] => [x]
  | y :: l' => if cmp x y <=? 0 then x :: l else y :: insert_by cmp x l'
  end.

Fixpoint sort_by {A} (cmp : A -> A -> Z) (l : list A) : list A :=
  match l with
  | [] => []
  | x :: l' => insert_by cmp x (sort_by cmp l')
  end.

(** [it => !sinceMs || it.t >= (sinceMs - 5_000)] *)
Definition is_fresh (sinceMs : option Z) (it : string * Z) : bool :=
  negb (truthy_num sinceMs) || (default 0 sinceMs - 5000 <=? snd it).

(** [names.map(name => ({ name, t: fs.statSync(path.join(baseDir, name)).mtimeMs }))];
    one failing [statSync] throws out of the whole map. *)
Definition stat_all (w : World) (baseDir : string) (names : list string)
  : option (list (string * Z)) :=
  mapM (fun name => t ← mtimeMs w baseDir name; Some (name, t)) names.

Definition findLatestUuidFromRecordingsSince
  (w : World) (baseDir : string) (sinceMs : option Z) : option string :=
  match readdirSync w baseDir with
  | None => None                                   (* catch {} *)
  | Some entries =>
      let names := List.filter isUuidDirName entries in
      match stat_all w baseDir names with
      | None => None                               (* catch {} *)
      | Some its =>
          let fresh := sort_by (fun a b => snd b - snd a)
                               (List.filter (is_fresh sinceMs) its) in
          fst <$> head fresh
      end
  end.

(** ** Discovery from output lines *)

(** [raw.split("\n")] *)
Fixpoint split_lf (s : list ascii) : list (list ascii) :=
  match s with
  | [] => [[]]
  | c :: tl =>
      if Ascii.eqb c LF then [] :: split_lf tl
      else match split_lf tl with
           | h :: r => (c :: h) :: r
           | [] => [[c]]
           end
  end.

Definition lines_of (raw : string) : list string :=
  string_of_list_ascii <$> split_lf (list_ascii_of_string raw).

(** [.filter(Boolean)] on strings *)
Definition nonempty (s : string) : bool := negb (String.eqb s EmptyString).

(** The container-name pattern, case-insensitive: either the text
    [::container_name::] or [CONTAINER_NAME:] with optional white space,
    then group 1, one or more of [[A-Za-z0-9_.-]]. *)
Definition CONTAINER_NAME_RE : regex :=
  Seq (Alt (Chars "::container_name::")
           (Seq (Chars "CONTAINER_NAME:") (Rep space 0 None)))
      (Group (Rep (Cls false [("A", "Z"); ("a", "z"); ("0", "9");
                              ("_", "_"); (".", "."); ("-", "-")]%char) 1 None)).

(** [cname] without a leading [meetbot-] *)
Definition drop_meetbot (cname : string) : string :=
  match strip_prefix false (list_ascii_of_string "meetbot-") (list_ascii_of_string cname) with
  | Some r => string_of_list_ascii r
  | None => cname
  end.

Definition ensureHostPort8080 (w : World) (now : Z) (jobId cname : string)
           (attempt : nat) (st : State) : State :=
  if nonempty cname then
    let st := emit (FxDockerPort cname) st in
    match dockerGetHostPort8080 w cname with
    | Some hp =>
        let st := setJob_ now jobId (Job.p_hostPort8080 hp) st in
        pushLog now jobId ("[api] mapped container " +:+ cname +:+ " -> host :" +:+ pretty hp) st
    | None =>
        if (attempt <? 3)%nat
        then emit (FxRetryHostPort 1200 jobId cname (S attempt)) st
        else st
    end
  else st.

(** 1) the uuid, once; [jcur] is the job as read at the top of the loop body. *)
Definition scan_uuid (now : Z) (id : string) (jcur : Job.t) (line : string)
           (st : State) : State :=
  if negb (truthy_str (Job.uuid jcur)) then
    match extractUuidFrom line with
    | Some maybe => if nonempty maybe then setJob_ now id (Job.p_uuid maybe) st else st
    | None => st
    end
  else st.

(** 2) the container name, with the same [jcur]. *)
Definition scan_container (w : World) (now : Z) (id : string) (jcur : Job.t)
           (line : string) (st : State) : State :=
  match match_group1 true CONTAINER_NAME_RE line with
  | Some cname =>
      if negb (truthy_str (Job.containerName jcur)) then
        let st := setJob_ now id (Job.p_containerName cname) st in
        let st := setJob_ now id (Job.p_containerName cname) st in
        let maybe := drop_meetbot cname in
        let st :=
          if negb (truthy_str (Job.uuid jcur)) && isUuidDirName maybe
          then setJob_ now id (Job.p_uuid maybe) st
          else st in
        ensureHostPort8080 w now id cname 0 st
      else st
  | None => st
  end.

(** The body of [for (const line of raw.split("\n"))]. *)
Definition scan_line (w : World) (now : Z) (id : string) (st : State) (line : string) : State :=
  let jcur := getJob id st in
  scan_container w now id jcur line (scan_uuid now id jcur line st).

(** [lastActivity = Date.now()] *)
Definition touch (now : Z) (id : string) (st : State) : State :=
  set_CLOSURES
    (alter (fun c => mkClosure now (guardStartedAt c) (armed c)
                               (exitCodeFinal c) (exitSignalFinal c)) id (CLOSURES st)) st.

Definition onData (w : World) (now : Z) (id : string) (src raw : string) (st : State) : State :=
  let st := touch now id st in
  let st := foldl (fun s l => pushLog now id (src +:+ " " +:+ l) s) st
                  (List.filter nonempty (lines_of raw)) in
  foldl (scan_line w now id) st (lines_of raw).

(** ** Submission and supervision *)

Record SubmitReq := mkReq {
  req_meeting_url : option string;
  req_bot_name : option string;
  req_extra : option (list string)
}.

Inductive SubmitResp :=
| BadRequest                                  (* 400 meeting_url required *)
| ScriptMissing                               (* 500 run script not found *)
| Started (jobId : string) (pid : option Z).  (* { success, jobId, pid, status: "running" } *)

(** The first [setJob] of [POST /jobs]. *)
Definition create_pending (now : Z) (id : string) (req : SubmitReq)
           (recordingsDir : string) (st : State) : State :=
  setJob_ now id
    (Job.mk (Some id) None (Some Pending) (Some now) (Some now) (Some now)
            (req_meeting_url req) (req_bot_name req) (req_extra req) None
            None None None (Some recordingsDir) None None None (Some []) (Some []))
    st.

(** [CHILDREN.set(id, child); setJob(id, { status: "running", pid })], then
    the guard's clocks and interval. *)
Definition spawn_running (now : Z) (id : string) (child : Child) (st : State) : State :=
  let st := set_CHILDREN (<[id := child]> (CHILDREN st)) st in
  let st := setJob_ now id (Job.p_running (child_pid child)) st in
  set_CLOSURES (<[id := mkClosure now now true None None]> (CLOSURES st)) st.

Definition post_jobs (now : Z) (scriptExists : bool) (newId recordingsDir : string)
           (child : Child) (req : SubmitReq) (st : State) : State * SubmitResp :=
  if negb (truthy_str (req_meeting_url req)) then (st, BadRequest)
  else if negb scriptExists then (st, ScriptMissing)
  else
    let st := create_pending now newId req recordingsDir st in
    let st := spawn_running now newId child st in
    (st, Started newId (child_pid child)).

(** [clearInterval(guard)] *)
Definition clearGuard (id : string) (st : State) : State :=
  set_CLOSURES
    (alter (fun c => mkClosure (lastActivity c) (guardStartedAt c) false
                               (exitCodeFinal c) (exitSignalFinal c)) id (CLOSURES st)) st.

(** One firing of the 5000 ms interval. *)
Definition guard_tick (cfg : Config) (now : Z) (id : string) (st : State) : State :=
  match CLOSURES st !! id with
  | Some c =>
      if armed c then
        let idleFor := now - lastActivity c in
        let aliveFor := now - guardStartedAt c in
        if BOT_MAX_TIMEOUT_MS cfg <? aliveFor then
          let st := emit (FxChildKill id "SIGKILL") st in
          let st := setJob_ now id (Job.p_timeout "max_time_exceeded") st in
          let st := pushLog now id
                      ("timeout -> killed (max " +:+ pretty (BOT_MAX_TIMEOUT_MS cfg) +:+ "ms)") st in
          clearGuard id st
        else if BOT_IDLE_TIMEOUT_MS cfg <? idleFor then
          let st := emit (FxChildKill id "SIGKILL") st in
          let st := setJob_ now id (Job.p_timeout "idle_timeout") st in
          let st := pushLog now id
                      ("timeout -> killed (idle " +:+ pretty idleFor +:+ "ms > "
                       +:+ pretty (BOT_IDLE_TIMEOUT_MS cfg) +:+ "ms)") st in
          clearGuard id st
        else st
      else st
  | None => st
  end.

(** [child.once("spawn")] *)
Definition on_spawn (now : Z) (id : string) (st : State) : State :=
  pushLog now id "spawned" st.

(** [child.once("error")]; [err] is [String(err)]. *)
Definition on_child_error (now : Z) (id : string) (err : string) (st : State) : State :=
  let st := setJob_ now id (Job.p_child_error err) st in
  pushLog now id ("error " +:+ err) st.

(** [child.once("exit")] *)
Definition on_exit (id : string) (code : option Z) (signal : option string) (st : State) : State :=
  set_CLOSURES
    (alter (fun c => mkClosure (lastActivity c) (guardStartedAt c) (armed c) code signal)
           id (CLOSURES st)) st.

(** [a ?? b] *)
Definition nullish {A} (a b : option A) : option A :=
  match a with
  | Some _ => a
  | None => b
  end.

Definition codeEff (st : State) (id : string) (code : option Z) : option Z :=
  nullish (c ← CLOSURES st !! id; exitCodeFinal c) code.

Definition sigEff (st : State) (id : string) (signal : option string) : option string :=
  nullish (c ← CLOSURES st !! id; exitSignalFinal c) signal.

(** [codeEff === 0] *)
Definition is_zero (code : option Z) : bool := bool_decide (code = Some 0).

(** [path.join(dir, name)] for a plain name *)
Definition path_join (dir name : string) : string := dir +:+ "/" +:+ name.

(** [!j0.uuid && codeEff === 0 && !sigEff] *)
Definition needs_scan (j0 : Job.t) (code : option Z) (sig : option string) : bool :=
  negb (truthy_str (Job.uuid j0)) && is_zero code && negb (truthy_str sig).

(** The part of the "close" handler that runs before [await sleep(500)]. *)
Definition close_begin (id : string) (st : State) : State :=
  let st := clearGuard id st in
  set_CHILDREN (delete id (CHILDREN st)) st.

(** After the sleep: the fallback scan with the job as read before it. *)
Definition close_scan (w : World) (cfg : Config) (now : Z) (id : string)
           (j0 : Job.t) (st : State) : State :=
  let since := or_num (Job.startedAt j0) (Job.createdAt j0) in
  let dir := or_str (Job.recordingsDir j0) (DEFAULT_RECORDINGS_DIR cfg) in
  let st := emit (FxScan dir) st in
  match findLatestUuidFromRecordingsSince w dir since with
  | Some fallback => if nonempty fallback then setJob_ now id (Job.p_uuid fallback) st else st
  | None => st
  end.

(** The reconciliation proper. *)
Definition close_finish (cfg : Config) (now : Z) (id : string)
           (code : option Z) (sig : option string) (st : State) : State :=
  let j := getJob id st in
  if is_zero code && negb (truthy_str sig) && truthy_str (Job.uuid j) then
    let u := default EmptyString (Job.uuid j) in
    let rec := path_join (or_str (Job.recordingsDir j) (DEFAULT_RECORDINGS_DIR cfg)) u in
    let st := setJob_ now id (Job.p_done rec) st in
    pushLog now id ("done uuid=" +:+ u) st
  else
    let reason :=
      if truthy_str sig then "killed_by_" +:+ default EmptyString sig
      else if is_zero code then "completed_without_uuid" else "bot_failed" in
    let st := setJob_ now id (Job.p_error (default (-1) code) sig reason) st in
    pushLog now id ("error " +:+ reason) st.

(** [child.once("close")], with nothing else running during the sleep;
    [now] is the clock before it and [later] the clock after it. *)
Definition on_close (w : World) (cfg : Config) (now later : Z) (id : string)
           (code : option Z) (signal : option string) (st : State) : State :=
  let ce := codeEff st id code in
  let se := sigEff st id signal in
  let st := close_begin id st in
  let j0 := getJob id st in
  let st :=
    if needs_scan j0 ce se
    then close_scan w cfg later id j0 (emit (FxSleep 500) st)
    else st in
  close_finish cfg (if needs_scan j0 ce se then later else now) id ce se st.

(** ** The stop cascade *)

Inductive Via :=
| stop_record_http_base
| stop_record_docker_exec
| stop_record_http_container
| docker_stop_name
| local_kill.

Inductive StopResp :=
| NotFound                                         (* 404 job_not_found *)
| Stopped (http : Z) (via : Via) (detail : string) (* success: true *)
| Unavailable.                                     (* 502 stop_unavailable *)

(** [job.uuid || job.meeting_url ? { ...bot_id, ...meeting_url } : null] *)
Definition payload_of (job : Job.t) : option Payload :=
  if truthy_str (Job.uuid job) || truthy_str (Job.meeting_url job) then
    Some (mkPayload (if truthy_str (Job.uuid job) then Job.uuid job else None)
                    (if truthy_str (Job.meeting_url job) then Job.meeting_url job else None))
  else None.

Fixpoint drop_while {A} (p : A -> bool) (l : list A) : list A :=
  match l with
  | [] => []
  | x :: l' => if p x then drop_while p l' else l
  end.

(** [MEET_BOT_BASE] without its trailing slashes *)
Definition rstrip_slashes (s : string) : string :=
  string_of_list_ascii
    (rev (drop_while (fun c => Ascii.eqb c "/") (rev (list_ascii_of_string s)))).

Definition httpPostNoKeepAlive (w : World) (u : Url) (p : Payload) (st : State)
  : State * option string :=
  (emit (FxHttpPost u p) st, httpPost w u p).

Fixpoint try_tools (w : World) (containerRef : string) (p : Payload)
         (tools : list Tool) (st : State) : State * option string :=
  match tools with
  | [] => (st, None)                         (* throw docker_exec_stop_failed_all *)
  | t :: tools' =>
      let st := emit (FxDockerExec t containerRef) st in
      match dockerExec w t containerRef p with
      | Some out => (st, Some out)
      | None => try_tools w containerRef p tools' st
      end
  end.

Definition dockerExecStopRecord (w : World) (containerRef : string) (p : Payload)
           (st : State) : State * option string :=
  try_tools w containerRef p [ToolNode; ToolPython; ToolCurl; ToolWget; ToolBusybox] st.

Definition tryHttpStopByContainer (w : World) (container : string) (p : Payload)
           (st : State) : State * option string :=
  let st := emit (FxDockerPort container) st in
  let port := dockerGetHostPort8080 w container in
  let st := emit (FxDockerInspectIP container) st in
  let ip := dockerGetIP w container in
  let byPort :=
    if truthy_num port
    then httpPostNoKeepAlive w (UrlHostPort (default 0 port)) p st
    else (st, None) in
  match byPort with
  | (st, Some data) => (st, Some data)
  | (st, None) =>
      if truthy_str ip
      then httpPostNoKeepAlive w (UrlContainerIP (default EmptyString ip)) p st
      else (st, None)                        (* throw *)
  end.

(** A step of the cascade either answers the request or falls through. *)
Definition Strategy := State -> State * option StopResp.

Definition orElse (s1 s2 : Strategy) : Strategy :=
  fun st => match s1 st with
            | (st', Some r) => (st', Some r)
            | (st', None) => s2 st'
            end.

Definition stopping (now : Z) (jobId : string) (st : State) : State :=
  setJob_ now jobId (Job.p_status Stopping) st.

(** 1) the configured base *)
Definition stop_via_base (w : World) (cfg : Config) (now : Z) (jobId : string)
           (payload : option Payload) : Strategy :=
  fun st =>
    match payload with
    | Some p =>
        if nonempty (MEET_BOT_BASE cfg) then
          match httpPostNoKeepAlive w (UrlBase (rstrip_slashes (MEET_BOT_BASE cfg))) p st with
          | (st, Some data) => (stopping now jobId st, Some (Stopped 200 stop_record_http_base data))
          | (st, None) => (st, None)
          end
        else (st, None)
    | None => (st, None)
    end.

(** 2) docker exec inside the container *)
Definition stop_via_exec (w : World) (now : Z) (jobId : string) (job : Job.t)
           (payload : option Payload) : Strategy :=
  fun st =>
    match payload with
    | Some p =>
        if truthy_str (Job.containerName job) then
          match dockerExecStopRecord w (default EmptyString (Job.containerName job)) p st with
          | (st, Some out) => (stopping now jobId st, Some (Stopped 200 stop_record_docker_exec out))
          | (st, None) => (st, None)
          end
        else (st, None)
    | None => (st, None)
    end.

(** 3) HTTP through the host port or the container address *)
Definition stop_via_container_http (w : World) (now : Z) (jobId : string) (job : Job.t)
           (payload : option Payload) : Strategy :=
  fun st =>
    match payload with
    | Some p =>
        if truthy_str (Job.containerName job) then
          match tryHttpStopByContainer w (default EmptyString (Job.containerName job)) p st with
          | (st, Some data) =>
              (stopping now jobId st, Some (Stopped 200 stop_record_http_container data))
          | (st, None) => (st, None)
          end
        else (st, None)
    | None => (st, None)
    end.

(** 4) docker stop, when allowed *)
Definition stop_via_docker_stop (w : World) (cfg : Config) (now : Z) (jobId : string)
           (job : Job.t) : Strategy :=
  fun st =>
    if ALLOW_DOCKER_STOP cfg && truthy_str (Job.containerName job) then
      let target := default EmptyString (Job.containerName job) in
      let st := emit (FxDockerStop target) st in
      if dockerStop w target
      then (stopping now jobId st, Some (Stopped 202 docker_stop_name target))
      else (st, None)
    else (st, None).

(** 5) signal the child process *)
Definition stop_via_local_kill (w : World) (now : Z) (jobId : string) : Strategy :=
  fun st =>
    match CHILDREN st !! jobId with
    | Some child =>
        let st := emit (FxProcessKill (child_pid child) "SIGTERM") st in
        let termSent := processKill w (child_pid child) "SIGTERM" in
        let st := emit (FxKillAfter 2000 (child_pid child) "SIGKILL") st in
        (stopping now jobId st,
         Some (Stopped 202 local_kill
                       (if termSent then "SIGTERM sent to child" else "failed_to_signal_child")))
    | None => (st, None)
    end.

(** [app.post("/jobs/:id/stop")] *)
Definition stop_handler (w : World) (cfg : Config) (now : Z) (jobId : string)
           (st : State) : State * StopResp :=
  match JOBS st !! jobId with
  | None => (st, NotFound)
  | Some job =>
      let payload := payload_of job in
      let cascade :=
        orElse (stop_via_base w cfg now jobId payload)
          (orElse (stop_via_exec w now jobId job payload)
             (orElse (stop_via_container_http w now jobId job payload)
                (orElse (stop_via_docker_stop w cfg now jobId job)
                        (stop_via_local_kill w now jobId)))) in
      match cascade st with
      | (st, Some r) => (st, r)
      | (st, None) => (st, Unavailable)
      end
  end.

(** ** The API-key middleware *)

Definition starts_with (p s : string) : bool :=
  bool_decide (is_Some (strip_prefix false (list_ascii_of_string p) (list_ascii_of_string s))).

Definition ends_with (p s : string) : bool :=
  bool_decide (is_Some (strip_prefix false (rev (list_ascii_of_string p))
                                     (rev (list_ascii_of_string s)))).

Inductive KeyCheck := Next | Unauthorized.   (* next() | 401 *)

Definition api_key_check (cfg : Config) (path : string) (key : option string) : KeyCheck :=
  if String.eqb path "/health" || (starts_with "/jobs/" path && ends_with "/logs" path)
  then Next
  else if negb (truthy_str key) || negb (bool_decide (key = Some (API_KEY cfg)))
       then Unauthorized
       else Next.

(** The routes of the service and the request path of each. *)
Inductive Route :=
| RHealth                    (* GET /health *)
| RSubmit                    (* POST /jobs *)
| RStatus (id : string)      (* GET /jobs/:id/status *)
| RStop (id : string)        (* POST /jobs/:id/stop *)
| RPresign                   (* GET /s3/presign-get *)
| RLogs (id : string).       (* the log stream: a path the key check lets through *)

Definition path_of (r : Route) : string :=
  match r with
  | RHealth => "/health"
  | RSubmit => "/jobs"
  | RStatus id => "/jobs/" +:+ id +:+ "/status"
  | RStop id => "/jobs/" +:+ id +:+ "/stop"
  | RPresign => "/s3/presign-get"
  | RLogs id => "/jobs/" +:+ id +:+ "/logs"
  end.


(** ** Events of one job *)

Inductive Op :=
| OpSpawned                                           (* "spawn" *)
| OpData (src raw : string)                           (* "data" on stdout or stderr *)
| OpTick                                              (* the guard interval fires *)
| OpChildError (err : string)                         (* "error" *)
| OpExit (code : option Z) (signal : option string)   (* "exit" *)
| OpClose (later : Z) (code : option Z) (signal : option string)  (* "close" *)
| OpStop                                              (* POST /jobs/:id/stop *)
| OpRetryHostPort (cname : string) (attempt : nat).   (* the 1200 ms retry timer *)

Definition handle (w : World) (cfg : Config) (id : string) (st : State) (ev : Z * Op) : State :=
  let now := fst ev in
  match snd ev with
  | OpSpawned => on_spawn now id st
  | OpData src raw => onData w now id src raw st
  | OpTick => guard_tick cfg now id st
  | OpChildError err => on_child_error now id err st
  | OpExit code signal => on_exit id code signal st
  | OpClose later code signal => on_close w cfg now later id code signal st
  | OpStop => fst (stop_handler w cfg now id st)
  | OpRetryHostPort cname attempt => ensureHostPort8080 w now id cname attempt st
  end.

Definition replay (w : World) (cfg : Config) (id : string) (evs : list (Z * Op)) (st : State) : State :=
  foldl (handle w cfg id) st evs.

(** ** Sample inputs *)

Module Sample.
Definition U1 : string := "AAAAAAAA-1111-2222-3333-444444444444".
Definition U2 : string := "BBBBBBBB-1111-2222-3333-444444444444".
Definition U3 : string := "CCCCCCCC-1111-2222-3333-444444444444".

Definition cfg : Config :=
  mkConfig "secret" EmptyString true (15 * 60000) (2 * 60 * 60000) "/recordings".

(** Nothing outside the process answers. *)
Definition silent : World :=
  mkWorld (fun _ _ => None) (fun _ _ _ => None) (fun _ => None) (fun _ => None)
          (fun _ => false) (fun _ _ => false) (fun _ => None) (fun _ _ => None).

Definition request : SubmitReq := mkReq (Some "https://meet.example/abc") None None.

Definition boot : State := mkState ∅ ∅ ∅ ∅ [].

(** A job submitted and spawned at time 1000. *)
Definition st_running : State :=
  fst (post_jobs 1000 true "j" "/recordings" (mkChild (Some 4242)) request boot).

(** The same job after a line that carries an identifier. *)
Definition st_identified : State :=
  onData silent 2000 "j" "[bot:stdout]" ("session ID: " +:+ U1) st_running.

(** A recordings directory with a stale entry, two fresh ones and a file
whose name is no identifier. *)
Definition U_stale : string := "DDDDDDDD-1111-2222-3333-444444444444".

Definition with_recordings : World :=
  mkWorld (fun _ _ => None) (fun _ _ _ => None) (fun _ => None) (fun _ => None)
          (fun _ => false) (fun _ _ => false)
          (fun dir => if String.eqb dir "/recordings"
                      then Some [U_stale; U1; "notes.txt"; U2] else None)
          (fun dir name =>
             if String.eqb name U_stale then Some 1000
             else if String.eqb name U1 then Some 99000
             else if String.eqb name U2 then Some 120000
             else if String.eqb name "notes.txt" then Some 130000
             else None).

(** A control-plane base is configured and answers; nothing else does. *)
Definition cfg_base : Config :=
  mkConfig "secret" "http://bot:8080/" true (15 * 60000) (2 * 60 * 60000) "/recordings".

Definition base_up : World :=
  mkWorld (fun u _ => match u with UrlBase _ => Some "ok" | _ => None end)
          (fun _ _ _ => None) (fun _ => None) (fun _ => None)
          (fun _ => false) (fun _ _ => false) (fun _ => None) (fun _ _ => None).

(** A job submitted and spawned at time 100000 that printed nothing. *)
Definition st_quiet : State :=
  fst (post_jobs 100000 true "j" "/recordings" (mkChild (Some 4242)) request boot).
End Sample.

Definition job_created_at (t : Z) : Job.t :=
  Job.mk (Some "j") None (Some Pending) (Some t) (Some t) (Some t)
         (Some "https://meet.example/abc") None None None
         None None None (Some "/recordings") None None None (Some []) (Some []).

Definition registry_with (j : Job.t) : State := mkState {["j" := j]} ∅ ∅ ∅ [].

(** ** Notions the statements use *)

(** An entry that the fallback scan may pick: its name has the identifier
    shape and it was modified no earlier than 5 s before the job start. *)
Definition qualifies (w : World) (dir : string) (entries : list string)
           (since : Z) (name : string) (t : Z) : Prop :=
  In name entries /\ isUuidDirName name = true
  /\ mtimeMs w dir name = Some t /\ since - 5000 <= t.

(** *** The stop cascade, strategy by strategy

    What one strategy does when its turn comes, read off the environment:
    whether it applies to the job, whether it succeeds, the calls it makes
    and the response it gives on success. *)

Record Outcome := mkOutcome {
  o_via : Via;
  o_applies : bool;
  o_succeeds : bool;
  o_fx : list Effect;
  o_http : Z;
  o_detail : string
}.

Definition add_fx (fx : list Effect) (st : State) : State :=
  mkState (JOBS st) (CHILDREN st) (CLOSURES st) (SINKS st) (FX st ++ fx).

Definition not_applicable (v : Via) : Outcome := mkOutcome v false false [] 0 EmptyString.

Definition outcome_base (w : World) (cfg : Config) (job : Job.t) : Outcome :=
  match payload_of job with
  | Some p =>
      let u := UrlBase (rstrip_slashes (MEET_BOT_BASE cfg)) in
      mkOutcome stop_record_http_base (nonempty (MEET_BOT_BASE cfg))
                (bool_decide (is_Some (httpPost w u p)))
                [FxHttpPost u p] 200 (default EmptyString (httpPost w u p))
  | None => not_applicable stop_record_http_base
  end.

Fixpoint tools_tried (w : World) (c : string) (p : Payload) (tools : list Tool) : list Tool :=
  match tools with
  | [] => []
  | t :: r => t :: match dockerExec w t c p with
                   | Some _ => []
                   | None => tools_tried w c p r
                   end
  end.

Fixpoint tools_out (w : World) (c : string) (p : Payload) (tools : list Tool) : option string :=
  match tools with
  | [] => None
  | t :: r => match dockerExec w t c p with
              | Some out => Some out
              | None => tools_out w c p r
              end
  end.

Definition all_tools : list Tool := [ToolNode; ToolPython; ToolCurl; ToolWget; ToolBusybox].

Definition outcome_exec (w : World) (job : Job.t) : Outcome :=
  match payload_of job with
  | Some p =>
      let c := default EmptyString (Job.containerName job) in
      mkOutcome stop_record_docker_exec (truthy_str (Job.containerName job))
                (bool_decide (is_Some (tools_out w c p all_tools)))
                ((fun t => FxDockerExec t c) <$> tools_tried w c p all_tools)
                200 (default EmptyString (tools_out w c p all_tools))
  | None => not_applicable stop_record_docker_exec
  end.

Definition outcome_container_http (w : World) (job : Job.t) : Outcome :=
  match payload_of job with
  | Some p =>
      let c := default EmptyString (Job.containerName job) in
      let port := dockerGetHostPort8080 w c in
      let ip := dockerGetIP w c in
      let by_port := if truthy_num port then httpPost w (UrlHostPort (default 0 port)) p else None in
      let by_ip := if truthy_str ip then httpPost w (UrlContainerIP (default EmptyString ip)) p else None in
      mkOutcome stop_record_http_container (truthy_str (Job.containerName job))
                (bool_decide (is_Some (nullish by_port by_ip)))
                ([FxDockerPort c; FxDockerInspectIP c]
                 ++ (if truthy_num port then [FxHttpPost (UrlHostPort (default 0 port)) p] else [])
                 ++ (if bool_decide (is_Some by_port) then []
                     else if truthy_str ip
                          then [FxHttpPost (UrlContainerIP (default EmptyString ip)) p] else []))
                200 (default EmptyString (nullish by_port by_ip))
  | None => not_applicable stop_record_http_container
  end.

Definition outcome_docker_stop (w : World) (cfg : Config) (job : Job.t) : Outcome :=
  let c := default EmptyString (Job.containerName job) in
  mkOutcome docker_stop_name
            (ALLOW_DOCKER_STOP cfg && truthy_str (Job.containerName job))
            (dockerStop w c) [FxDockerStop c] 202 c.

(** The local signal: with a process handle the handler answers with
    success whether or not [process.kill] went through; [delivered] says
    which notion of success the table records. *)
Definition outcome_local_kill (w : World) (delivered : bool) (child : option Child) : Outcome :=
  match child with
  | Some ch =>
      let sent := processKill w (child_pid ch) "SIGTERM" in
      mkOutcome local_kill true (if delivered then sent else true)
                [FxProcessKill (child_pid ch) "SIGTERM";
                 FxKillAfter 2000 (child_pid ch) "SIGKILL"]
                202 (if sent then "SIGTERM sent to child" else "failed_to_signal_child")
  | None => not_applicable local_kill
  end.

(** The five strategies in the order of the handler. *)
Definition strategy_table (w : World) (cfg : Config) (delivered : bool)
           (job : Job.t) (child : option Child) : list Outcome :=
  [ outcome_base w cfg job; outcome_exec w job; outcome_container_http w job;
    outcome_docker_stop w cfg job; outcome_local_kill w delivered child ].

Definition wins (o : Outcome) : bool := o_applies o && o_succeeds o.

(** The strategies that get their turn: the applicable ones, in order, up
    to and including the first that succeeds. *)
Fixpoint attempted (tbl : list Outcome) : list Outcome :=
  match tbl with
  | [] => []
  | o :: r =>
      if o_applies o then o :: (if o_succeeds o then [] else attempted r)
      else attempted r
  end.

(** The strategy an effect belongs to. *)
Definition via_of (e : Effect) : option Via :=
  match e with
  | FxHttpPost (UrlBase _) _ => Some stop_record_http_base
  | FxDockerExec _ _ => Some stop_record_docker_exec
  | FxDockerPort _ | FxDockerInspectIP _ | FxHttpPost _ _ => Some stop_record_http_container
  | FxDockerStop _ => Some docker_stop_name
  | FxProcessKill _ _ | FxKillAfter _ _ _ => Some local_kill
  | _ => None
  end.

(** Every call of a row belongs to the strategy of the row. *)
Definition tagged (o : Outcome) : Prop :=
  Forall (fun e => via_of e = Some (o_via o)) (o_fx o).

Ltac osimpl := cbn [o_applies o_succeeds o_fx o_http o_via o_detail].

(** A strategy of the handler does what its row of the table says, after
    any calls already made. *)
Definition behaves (now : Z) (id : string) (o : Outcome) (S : Strategy) (st : State) : Prop :=
  forall fx0,
    S (add_fx fx0 st) =
    if o_applies o then
      if o_succeeds o
      then (stopping now id (add_fx (fx0 ++ o_fx o) st),
            Some (Stopped (o_http o) (o_via o) (o_detail o)))
      else (add_fx (fx0 ++ o_fx o) st, None)
    else (add_fx fx0 st, None).

(** *** The log stream *)




(** *** Escape sequences *)

(** The string contains a match of the SGR pattern. *)
Definition has_sgr (s : string) : bool :=
  bool_decide (is_Some (search false SGR (list_ascii_of_string s))).

(** Every escape character of the string begins a complete SGR sequence. *)
Definition escapes_complete (s : string) : Prop :=
  forall pre suf,
    list_ascii_of_string s = pre ++ ESC :: suf ->
    is_Some (exec_at false SGR (ESC :: suf)).

(** What follows each occurrence of [c] in a string. *)
Fixpoint tails_after (c : ascii) (l : list ascii) : list (list ascii) :=
  match l with
  | [] => []
  | a :: tl => if Ascii.eqb a c then tl :: tails_after c tl else tails_after c tl
  end.

Module Nested.
(** An escape sequence split in two by another one. *)
Definition line : string :=
  "session ID: " +:+ String ESC "[" +:+ String ESC "[0m" +:+ "0m" +:+ Sample.U1.

(** An identifier wrapped in a colour and a reset. *)
Definition coloured : string :=
  "session ID: " +:+ String ESC "[32m" +:+ Sample.U1 +:+ String ESC "[0m".
End Nested.

(** *** Discovery *)

(** What output ingestion leaves alone in a job. *)
Definition stable (j j' : Job.t) : Prop :=
  Job.status j' = Job.status j /\ Job.error j' = Job.error j
  /\ Job.exitCode j' = Job.exitCode j /\ Job.signal j' = Job.signal j
  /\ Job.clients j' = Job.clients j /\ Job.startedAt j' = Job.startedAt j.

Module Conflict.
(** One line that carries an identifier and the name of a container called
after another identifier, then a line with a third one. *)
Definition line1 : string :=
  "bot UUID: " +:+ Sample.U1 +:+ " ::container_name::meetbot-" +:+ Sample.U2.
Definition line2 : string := "bot UUID: " +:+ Sample.U3.
Definition chunk : string := line1 +:+ String LF line2.
End Conflict.

(** *** The timeout guard *)



Module Chatty.
(** Output every minute under a two-minute idle limit, the guard firing in
between. *)
Definition cfg : Config :=
  mkConfig "secret" EmptyString true (2 * 60000) (2 * 60 * 60000) "/recordings".

Definition evs : list (Z * Op) :=
  [ (31000, OpTick); (61000, OpData "[bot:stdout]" "joining");
    (91000, OpTick); (120000, OpTick); (121000, OpData "[bot:stdout]" "recording");
    (150000, OpTick); (181000, OpData "[bot:stderr]" "still here") ].
End Chatty.

(** *** The status machine *)

(** The transitions of the state machine of section 4.5. *)
Inductive sm_step : Status -> Status -> Prop :=
| sm_spawn : sm_step Pending Running
| sm_exit_done : sm_step Running Done
| sm_exit_error : sm_step Running Error
| sm_watchdog : sm_step Running Timeout
| sm_stop : sm_step Running Stopping
| sm_stopped_done : sm_step Stopping Done
| sm_stopped_error : sm_step Stopping Error.

(** What each event writes to the status, whatever it was. *)
Definition writes (op : Op) (s s' : Status) : Prop :=
  match op with
  | OpSpawned | OpData _ _ | OpExit _ _ | OpRetryHostPort _ _ => s' = s
  | OpTick => s' = s \/ s' = Timeout
  | OpChildError _ => s' = Error
  | OpClose _ _ _ => s' = Done \/ s' = Error
  | OpStop => s' = s \/ s' = Stopping
  end.

Definition status_of (id : string) (st : State) : option Status :=
  Job.status (getJob id st).

Module Finished.
(** The identified sample job after a clean exit. *)
Definition st_done : State :=
  on_close Sample.silent Sample.cfg 5000 5500 "j" (Some 0) None Sample.st_identified.

(** The quiet sample job after the watchdog has fired, and then after the
"close" event of the killed child. *)
Definition st_timed_out : State := guard_tick Sample.cfg 1100000 "j" Sample.st_running.
Definition st_reaped : State :=
  on_close Sample.silent Sample.cfg 1100050 1100550 "j" None (Some "SIGKILL") st_timed_out.
End Finished.

(** ** More of app.js *)

(** *** Endpoint URLs *)

(** [/^https?:\/\//i] *)
Definition HTTP_SCHEME : regex :=
  Seq (Chars "http")
      (Seq (Rep (Cls false [("s", "s")]%char) 0 (Some 1%nat)) (Chars "://")).

(** [r.test(s)] for a pattern anchored at the start only. *)
Definition test_prefix (ci : bool) (r : regex) (s : string) : bool :=
  bool_decide (is_Some (exec_at ci r (list_ascii_of_string s))).

Definition asEndpointUrl (v : option string) : option string :=
  if truthy_str v then
    let s := default EmptyString v in
    Some (if test_prefix true HTTP_SCHEME s then s else "https://" +:+ s)
  else None.

(** *** The run script *)

(** [for (const p of tried) if (fs.existsSync(p)) return p; return tried[0]] *)
Definition resolveRunScript (existsSync : string -> bool) (tried : list string)
  : option string :=
  match List.find existsSync tried with
  | Some p => Some p
  | None => head tried
  end.

(** [POST /jobs] from the candidates of the run script on; [recordingsDirOf]
    is [RECORDINGS_DIR] or the [recordings] directory beside the script. *)
Definition submit (existsSync : string -> bool) (tried : list string)
           (recordingsDirOf : string -> string) (now : Z) (newId : string)
           (child : Child) (req : SubmitReq) (st : State) : State * SubmitResp :=
  let runPath := default EmptyString (resolveRunScript existsSync tried) in
  post_jobs now (existsSync runPath) newId (recordingsDirOf runPath) child req st.

(** *** Patterns with several groups *)

Fixpoint run_groups {R} (ci : bool) (r : regex) (inp : chars) (caps : list chars)
         (k : chars -> list chars -> option R) {struct r} : option R :=
  match r with
  | Chars s =>
      match strip_prefix ci (list_ascii_of_string s) inp with
      | Some rest => k rest caps
      | None => None
      end
  | Rep c min max => rep_greedy (class_mem ci c) min max inp (fun rest => k rest caps)
  | Group r1 =>
      run_groups ci r1 inp caps
        (fun rest caps' => k rest (caps' ++ [take (length inp - length rest)%nat inp]))
  | Seq r1 r2 => run_groups ci r1 inp caps (fun rest caps' => run_groups ci r2 rest caps' k)
  | Alt r1 r2 =>
      match run_groups ci r1 inp caps k with
      | Some x => Some x
      | None => run_groups ci r2 inp caps k
      end
  end.

(** [s.match(r)] for a pattern anchored at both ends: the groups. *)
Definition match_whole (ci : bool) (r : regex) (s : string) : option (list chars) :=
  run_groups ci r (list_ascii_of_string s) []
             (fun rest caps => match rest with [] => Some caps | _ => None end).

(** *** Presigning *)

Definition CR : ascii := "013"%char.
Definition BACKSLASH : ascii := "092"%char.

(** [[^/]] *)
Definition notslash : class := Cls true [("/", "/")]%char.
(** [.], below code unit 256 *)
Definition dot : class := Cls true [(LF, LF); (CR, CR)].
(** [[\/\\]] *)
Definition separator : class := Cls false [("/"%char, "/"%char); (BACKSLASH, BACKSLASH)].

(** [/^s3:\/\/([^/]+)\/(.+)$/i] *)
Definition S3_URI : regex :=
  Seq (Chars "s3://")
      (Seq (Group (Rep notslash 1 None))
           (Seq (Chars "/") (Group (Rep dot 1 None)))).

Inductive S3UriError :=
| S3UriRequired      (* the uri is missing or empty *)
| S3UriMalformed.    (* the uri does not match *)

Definition parseS3Uri (uri : option string) : S3UriError + (string * string) :=
  if negb (truthy_str uri) then inl S3UriRequired
  else
    match match_whole true S3_URI (default EmptyString uri) with
    | Some [b; k] => inr (string_of_list_ascii b, string_of_list_ascii k)
    | _ => inl S3UriMalformed
    end.

(** [hay.includes(needle)] *)
Fixpoint includes (needle hay : chars) : bool :=
  match strip_prefix false needle hay with
  | Some _ => true
  | None => match hay with
            | [] => false
            | _ :: tl => includes needle tl
            end
  end.

Inductive FilenameError :=
| FilenameRequired
| FilenameHasSeparator
| FilenameHasDotDot.

(** [None]: the name passes; otherwise the error thrown. *)
Definition validateFilename (name : option string) : option FilenameError :=
  if negb (truthy_str name) then Some FilenameRequired
  else
    let cs := list_ascii_of_string (default EmptyString name) in
    if bool_decide (is_Some (search false (Rep separator 1 (Some 1%nat)) cs))
    then Some FilenameHasSeparator
    else if includes (list_ascii_of_string "..") cs then Some FilenameHasDotDot
    else None.

(** [true]: the uuid passes; [false]: the function throws. *)
Definition validateUuid (u : option string) : bool :=
  truthy_str u && isUuidDirName (default EmptyString u).

(** [s.split(sep)] for a one-character separator *)
Fixpoint split_on (sep : ascii) (s : list ascii) : list (list ascii) :=
  match s with
  | [] => [[]]
  | c :: tl =>
      if Ascii.eqb c sep then [] :: split_on sep tl
      else match split_on sep tl with
           | h :: r => (c :: h) :: r
           | [] => [[c]]
           end
  end.

Definition segments (path : string) : list string :=
  string_of_list_ascii <$> split_on "/" (list_ascii_of_string path).

Record PresignQuery := mkQuery {
  q_uuid : option string;
  q_filename : option string;
  q_s3 : option string;
  q_uri : option string
}.

Inductive PresignError :=
| MissingCredentials                       (* 500 missing_credentials *)
| BucketEnvMissing                         (* 500 bucket_env_missing *)
| BadUuid                                  (* 400 presign_failed, validateUuid *)
| BadFilename (e : FilenameError)          (* 400 presign_failed, validateFilename *)
| BadUri (e : S3UriError).                 (* 400 presign_failed, parseS3Uri *)

Record PresignTarget := mkTarget {
  t_bucket : string;
  t_key : string;
  t_downloadNameAuto : option string
}.

(** [a || b] on strings that may be [undefined]. *)
Definition or_opt (a b : option string) : option string := if truthy_str a then a else b.

(** [GET /s3/presign-get] up to the object that gets signed: the
    credentials guard, then bucket and key from [uuid] and [filename], or
    from the [s3] (or [uri]) parameter.  [ak] and [sk] are the two
    credentials of the environment, [bucketEnv] is [PRESIGN_BUCKET]. *)
Definition presign_target (ak sk : option string) (bucketEnv : string)
           (q : PresignQuery) : PresignError + PresignTarget :=
  if negb (truthy_str ak) || negb (truthy_str sk) then inl MissingCredentials
  else if truthy_str (q_uuid q) && truthy_str (q_filename q) then
    if negb (nonempty bucketEnv) then inl BucketEnvMissing
    else if negb (validateUuid (q_uuid q)) then inl BadUuid
    else
      match validateFilename (q_filename q) with
      | Some e => inl (BadFilename e)
      | None =>
          let u := default EmptyString (q_uuid q) in
          let f := default EmptyString (q_filename q) in
          inr (mkTarget bucketEnv (u +:+ "/" +:+ f) (Some f))
      end
  else
    let s3uri := or_opt (q_s3 q) (q_uri q) in
    match parseS3Uri (Some (or_str s3uri EmptyString)) with
    | inl e => inl (BadUri e)
    | inr (b, k) => inr (mkTarget b k (last (segments k)))
    end.

(** *** What the handlers do to a job *)

(** A job reached from another by [setJob] patches that satisfy [P] (of
    the job at that moment and the patch) and by [pushLog] lines. *)
Inductive evolves (P : Job.t -> Job.t -> Prop) : Job.t -> Job.t -> Prop :=
| ev_refl j : evolves P j j
| ev_patch j j' now patch :
    evolves P j j' -> P j' patch -> evolves P j (Job.merge now j' patch)
| ev_log j j' now line :
    evolves P j j' ->
    evolves P j (Job.with_logs (push_capped (Job.logs j') line)
                               (Job.merge now j' Job.empty)).

(** The patches the event handlers write: none carries a submission field,
    the buffer or the subscribers; an identifier written is not empty; and
    [done] is written only to a job that has an identifier. *)
Definition handler_patch (cur patch : Job.t) : Prop :=
  Job.id patch = None /\ Job.createdAt patch = None /\ Job.startedAt patch = None
  /\ Job.meeting_url patch = None /\ Job.bot_name patch = None
  /\ Job.extra patch = None /\ Job.recordingsDir patch = None
  /\ Job.logs patch = None /\ Job.clients patch = None
  /\ (Job.uuid patch = None \/ truthy_str (Job.uuid patch) = true)
  /\ (Job.status patch = Some Done ->
      truthy_str (Job.uuid cur) = true /\ Job.uuid patch = None)
  /\ (forall u, Job.uuid patch = Some u -> isUuidDirName u = true).

Ltac patch_ok :=
  unfold handler_patch; cbn; repeat split; auto; try discriminate;
  try (intros ? [= <-]; auto).

(** One handler run on job [id]: the job evolves, the other jobs stay. *)
Definition job_step (id : string) (st st' : State) : Prop :=
  evolves handler_patch (getJob id st) (getJob id st')
  /\ (forall id', id' <> id -> JOBS st' !! id' = JOBS st !! id').



(** The guard of the job cannot fire. *)
Definition disarmed (id : string) (st : State) : Prop :=
  (armed <$> CLOSURES st !! id) <> Some true.

Definition is_kill (e : Effect) : bool :=
  match e with
  | FxChildKill _ _ => true
  | _ => false
  end.

(** The kills the guard has sent so far. *)
Definition kills (st : State) : list Effect := List.filter is_kill (FX st).

(** What a handler that leaves the guard alone keeps: whether it is set,
    and the kills sent. *)
Definition quiet (id : string) (st st' : State) : Prop :=
  (armed <$> CLOSURES st' !! id) = (armed <$> CLOSURES st !! id)
  /\ kills st' = kills st.

(** A string of 36 characters of [[A-F0-9-]], in either case. *)
Definition shaped (cs : chars) : Prop :=
  length cs = 36%nat /\ Forall (fun c => class_mem true hexdash c = true) cs.

(** Every group of the pattern is the identifier group. *)
Fixpoint only_uuid_groups (r : regex) : Prop :=
  match r with
  | Group r1 => r1 = Rep hexdash 36 (Some 36%nat)
  | Seq r1 r2 | Alt r1 r2 => only_uuid_groups r1 /\ only_uuid_groups r2
  | _ => True
  end.

(** A match of the pattern goes through a group. *)
Fixpoint sets_group (r : regex) : bool :=
  match r with
  | Group _ => true
  | Seq r1 r2 => sets_group r1 || sets_group r2
  | Alt r1 r2 => sets_group r1 && sets_group r2
  | _ => false
  end.

(** Later patch over earlier patch, key by key. *)
Definition patch_then (p1 p2 : Job.t) : Job.t :=
  Job.mk (ovr (Job.id p2) (Job.id p1)) (ovr (Job.pid p2) (Job.pid p1))
         (ovr (Job.status p2) (Job.status p1))
         (ovr (Job.createdAt p2) (Job.createdAt p1))
         (ovr (Job.updatedAt p2) (Job.updatedAt p1))
         (ovr (Job.startedAt p2) (Job.startedAt p1))
         (ovr (Job.meeting_url p2) (Job.meeting_url p1))
         (ovr (Job.bot_name p2) (Job.bot_name p1))
         (ovr (Job.extra p2) (Job.extra p1))
         (ovr (Job.uuid p2) (Job.uuid p1))
         (ovr (Job.containerName p2) (Job.containerName p1))
         (ovr (Job.hostPort8080 p2) (Job.hostPort8080 p1))
         (ovr (Job.recordings p2) (Job.recordings p1))
         (ovr (Job.recordingsDir p2) (Job.recordingsDir p1))
         (ovr (Job.exitCode p2) (Job.exitCode p1))
         (ovr (Job.signal p2) (Job.signal p1))
         (ovr (Job.error p2) (Job.error p1))
         (ovr (Job.logs p2) (Job.logs p1))
         (ovr (Job.clients p2) (Job.clients p1)).

Module Dangling.
(** A recordings directory in which one identifier-shaped entry cannot be
stat'ed (a dangling link), beside a fresh one. *)
Definition world : World :=
  mkWorld (fun _ _ => None) (fun _ _ _ => None) (fun _ => None) (fun _ => None)
          (fun _ => false) (fun _ _ => false)
          (fun dir => Some [Sample.U1; Sample.U2])
          (fun dir name => if String.eqb name Sample.U1 then Some 120000 else None).
End Dangling.


(** The scheme of an S3 uri, in either case. *)
Definition s3_scheme (upper : bool) : string := if upper then "S3://" else "s3://".

(** What [match_whole] requires of the rest of the input. *)
Definition at_end (rest : chars) (caps : list chars) : option (list chars) :=
  match rest with [] => Some caps | _ => None end.



(** The identifier of a job, when there is one, has the identifier shape. *)
Definition well_formed_uuid (j : Job.t) : Prop :=
  forall u, Job.uuid j = Some u -> isUuidDirName u = true.



(** [n] slashes *)
Definition slashes (n : nat) : string := string_of_list_ascii (replicate n "/"%char).



(** [if (!API_KEY) process.exit(1)]: the service only runs with a key. *)
Definition starts_up (cfg : Config) : bool := nonempty (API_KEY cfg).


(** * Properties *)

(** ** The registry *)

Section RegistryLemmas.
Variables (now : Z) (id : string).

Lemma getJob_setJob_ p st :
  getJob id (setJob_ now id p st) = Job.merge now (getJob id st) p.
Proof. unfold getJob, setJob_, setJob; simpl. by rewrite lookup_insert_eq. Qed.

Lemma setJob_snd p st : snd (setJob now id p st) = Job.merge now (getJob id st) p.
Proof. reflexivity. Qed.

Lemma setJob_frame p st :
  CHILDREN (setJob_ now id p st) = CHILDREN st
  /\ CLOSURES (setJob_ now id p st) = CLOSURES st
  /\ SINKS (setJob_ now id p st) = SINKS st
  /\ FX (setJob_ now id p st) = FX st.
Proof. by repeat split. Qed.

Lemma write_all_frame frame cs st :
  let st' := foldl (fun s c => res_write frame c s) st cs in
  JOBS st' = JOBS st /\ CHILDREN st' = CHILDREN st
  /\ CLOSURES st' = CLOSURES st /\ FX st' = FX st.
Proof.
  revert st; induction cs as [|c cs IH]; intros st; simpl; [done|].
  destruct (IH (res_write frame c st)) as (-> & -> & -> & ->). done.
Qed.

Lemma getJob_pushLog line st :
  getJob id (pushLog now id line st)
  = Job.with_logs (push_capped (Job.logs (getJob id st)) line)
                  (Job.merge now (getJob id st) Job.empty).
Proof.
  unfold pushLog, setJob. cbv zeta.
  match goal with |- context [foldl ?f ?s ?l] =>
    destruct (write_all_frame (sse_frame line) l s) as (HJ & _) end.
  unfold getJob at 1. cbv zeta in HJ. rewrite HJ. simpl.
  by rewrite lookup_insert_eq.
Qed.

Lemma pushLog_frame line st :
  CHILDREN (pushLog now id line st) = CHILDREN st
  /\ CLOSURES (pushLog now id line st) = CLOSURES st
  /\ FX (pushLog now id line st) = FX st.
Proof.
  unfold pushLog, setJob. cbv zeta.
  match goal with |- context [foldl ?f ?s ?l] =>
    destruct (write_all_frame (sse_frame line) l s) as (_ & HC & HG & HF) end.
  cbv zeta in *. rewrite HC, HG, HF. done.
Qed.
End RegistryLemmas.

(** A patch that carries no [updatedAt] leaves the stored one of an
    existing job as it was: the spread of the old object comes after
    [updatedAt: now]. *)
Lemma setJob_keeps_updatedAt now id patch st t :
  Job.updatedAt (getJob id st) = Some t ->
  Job.updatedAt patch = None ->
  Job.updatedAt (getJob id (setJob_ now id patch st)) = Some t.
Proof. intros Hj Hp. rewrite getJob_setJob_. simpl. by rewrite Hp, Hj. Qed.

(** C6, at the failing input: a job stored at time 1000 is patched at time
    2000 with [{ status: "running" }]; the stored [updatedAt] is still 1000,
    not the time of the mutation. *)
Theorem setJob_updatedAt_stale :
  let st := registry_with (job_created_at 1000) in
  let st' := setJob_ 2000 "j" (Job.p_status Running) st in
  Job.status (getJob "j" st') = Some Running
  /\ Job.updatedAt (getJob "j" st') = Some 1000
  /\ Job.updatedAt (getJob "j" st') <> Some 2000.
Proof. vm_compute. repeat split; congruence. Qed.

(** ** The log buffer *)

Lemma push_capped_spec old line :
  let all := default [] old ++ [line] in
  push_capped old line = drop (length all - LOG_CAPACITY)%nat all.
Proof.
  unfold push_capped; cbv zeta.
  destruct (Nat.ltb_spec LOG_CAPACITY (length (default [] old ++ [line]))) as [H|H]; [done|].
  replace (length (default [] old ++ [line]) - LOG_CAPACITY)%nat with O by lia. done.
Qed.

(** C9: after every [pushLog] the job's buffer holds at most 5000 lines; it
    is the old buffer followed by the new line with just enough of the
    oldest lines removed from the front, so the new line is last and the
    lines kept are the most recent ones in arrival order. *)
Theorem pushLog_buffer_bounded now id line st :
  let old := default [] (Job.logs (getJob id st)) in
  let buf := default [] (Job.logs (getJob id (pushLog now id line st))) in
  (length buf <= 5000)%nat
  /\ buf = drop (length (old ++ [line]) - 5000)%nat (old ++ [line])
  /\ (exists evicted, old ++ [line] = evicted ++ buf
                      /\ length evicted = (length (old ++ [line]) - 5000)%nat)
  /\ last buf = Some line.
Proof.
  cbv zeta. rewrite getJob_pushLog. simpl.
  rewrite push_capped_spec. cbv zeta. change LOG_CAPACITY with 5000%nat.
  set (all := default [] (Job.logs (getJob id st)) ++ [line]).
  assert (Hlen : (1 <= length all)%nat).
  { subst all. rewrite length_app. simpl. lia. }
  split; [rewrite length_drop; lia|]. split; [done|]. split.
  - exists (take (length all - 5000) all). split.
    + by rewrite take_drop.
    + rewrite length_take. lia.
  - subst all. rewrite drop_app_le.
    + by rewrite last_snoc.
    + rewrite length_app in *. simpl in *. lia.
Qed.

(** ** Exit reconciliation *)

Lemma truthy_str_Some s : s <> EmptyString -> truthy_str (Some s) = true.
Proof.
  intros H. simpl. destruct (String.eqb_spec s EmptyString); [contradiction|done].
Qed.

Lemma close_finish_spec cfg now id ce se st :
  let j := getJob id st in
  let j' := getJob id (close_finish cfg now id ce se st) in
  Job.uuid j' = Job.uuid j
  /\ (ce = Some 0 -> truthy_str se = false -> truthy_str (Job.uuid j) = true ->
      Job.status j' = Some Done /\ Job.exitCode j' = Some 0 /\ Job.signal j' = Some None)
  /\ (ce = Some 0 -> truthy_str se = false -> truthy_str (Job.uuid j) = false ->
      Job.status j' = Some Error /\ Job.error j' = Some "completed_without_uuid")
  /\ (truthy_str se = true ->
      Job.status j' = Some Error /\ Job.signal j' = Some se
      /\ Job.error j' = Some ("killed_by_" +:+ default EmptyString se))
  /\ (truthy_str se = false -> ce <> Some 0 ->
      Job.status j' = Some Error /\ Job.error j' = Some "bot_failed"
      /\ Job.exitCode j' = Some (default (-1) ce)).
Proof.
  cbv zeta. unfold close_finish, is_zero.
  destruct (truthy_str se) eqn:Hs; destruct (decide (ce = Some 0)) as [Hc|Hc];
    destruct (truthy_str (Job.uuid (getJob id st))) eqn:Hu;
    rewrite ?(bool_decide_eq_true_2 _ Hc), ?(bool_decide_eq_false_2 _ Hc); simpl;
    rewrite getJob_pushLog, getJob_setJob_; simpl;
    repeat split; try done; try congruence.
Qed.

Lemma getJob_close_begin id st : getJob id (close_begin id st) = getJob id st.
Proof. reflexivity. Qed.

(** C2: the "close" handler reconciles along the first-match table.  Clean
    exit with an identifier recorded gives [done]; clean exit with none
    after the fallback scan gives [error]/[completed_without_uuid]; a
    signal [S] gives [error]/[killed_by_S]; any other exit gives
    [error]/[bot_failed] with the exit code attached.  An identifier read
    from the output is the one kept. *)
Theorem close_reconciliation w cfg now later id code signal st :
  let ce := codeEff st id code in
  let se := sigEff st id signal in
  let j' := getJob id (on_close w cfg now later id code signal st) in
  (ce = Some 0 -> truthy_str se = false -> truthy_str (Job.uuid j') = true ->
   Job.status j' = Some Done /\ Job.exitCode j' = Some 0)
  /\ (ce = Some 0 -> truthy_str se = false -> truthy_str (Job.uuid j') = false ->
      Job.status j' = Some Error /\ Job.error j' = Some "completed_without_uuid")
  /\ (forall S, se = Some S -> S <> EmptyString ->
      Job.status j' = Some Error /\ Job.error j' = Some ("killed_by_" +:+ S))
  /\ (truthy_str se = false -> ce <> Some 0 ->
      Job.status j' = Some Error /\ Job.error j' = Some "bot_failed"
      /\ Job.exitCode j' = Some (default (-1) ce))
  /\ (truthy_str (Job.uuid (getJob id st)) = true -> Job.uuid j' = Job.uuid (getJob id st)).
Proof.
  cbv zeta. unfold on_close.
  set (ce := codeEff st id code). set (se := sigEff st id signal).
  set (t := if needs_scan _ ce se then later else now).
  set (st2 := if needs_scan _ ce se then close_scan _ _ _ _ _ _ else _).
  destruct (close_finish_spec cfg t id ce se st2) as (Hu & H1 & H2 & H3 & H4).
  cbv zeta in *. rewrite Hu.
  split; [intros; destruct H1; tauto|]. split; [tauto|]. split.
  - intros S HS Hne. destruct H3 as (? & ? & ?).
    + rewrite HS. by apply truthy_str_Some.
    + rewrite HS in *. simpl in *. done.
  - split; [tauto|]. intros Hj. subst st2. unfold needs_scan.
    rewrite !getJob_close_begin, Hj. done.
Qed.

Lemma close_reconciliation_witness :
  let j1 := getJob "j" (on_close Sample.silent Sample.cfg 5000 5500 "j"
                                 (Some 0) None Sample.st_identified) in
  let j2 := getJob "j" (on_close Sample.silent Sample.cfg 5000 5500 "j"
                                 (Some 0) None Sample.st_running) in
  let j3 := getJob "j" (on_close Sample.silent Sample.cfg 5000 5500 "j"
                                 None (Some "SIGTERM") Sample.st_identified) in
  let j4 := getJob "j" (on_close Sample.silent Sample.cfg 5000 5500 "j"
                                 (Some 3) None Sample.st_identified) in
  (Job.status j1 = Some Done /\ Job.exitCode j1 = Some 0)
  /\ (Job.status j2 = Some Error /\ Job.error j2 = Some "completed_without_uuid")
  /\ (Job.status j3 = Some Error /\ Job.error j3 = Some "killed_by_SIGTERM")
  /\ (Job.status j4 = Some Error /\ Job.error j4 = Some "bot_failed"
      /\ Job.exitCode j4 = Some 3)
  /\ Job.uuid j1 = Some Sample.U1.
Proof.
  cbv zeta.
  destruct (close_reconciliation Sample.silent Sample.cfg 5000 5500 "j"
              (Some 0) None Sample.st_identified) as (Hdone & _ & _ & _ & Hkeep).
  destruct (close_reconciliation Sample.silent Sample.cfg 5000 5500 "j"
              (Some 0) None Sample.st_running) as (_ & Hnone & _).
  destruct (close_reconciliation Sample.silent Sample.cfg 5000 5500 "j"
              None (Some "SIGTERM") Sample.st_identified) as (_ & _ & Hsig & _).
  destruct (close_reconciliation Sample.silent Sample.cfg 5000 5500 "j"
              (Some 3) None Sample.st_identified) as (_ & _ & _ & Hfail & _).
  split; [apply Hdone; vm_compute; reflexivity|].
  split; [apply Hnone; vm_compute; reflexivity|].
  split; [apply (Hsig "SIGTERM"); [vm_compute; reflexivity | discriminate]|].
  split; [apply Hfail; [vm_compute; reflexivity | discriminate]|].
  rewrite Hkeep; vm_compute; reflexivity.
Defined.

(** ** The fallback scan *)

Section SortLemmas.
Context {A : Type} (key : A -> Z).
Let cmp := fun a b : A => key b - key a.

Lemma insert_by_In x a l : In x (insert_by cmp a l) <-> x = a \/ In x l.
Proof.
  induction l as [|y l IH]; simpl; [intuition congruence|].
  destruct (cmp a y <=? 0); simpl; [intuition congruence|].
  rewrite IH. intuition congruence.
Qed.

Lemma sort_by_In x l : In x (sort_by cmp l) <-> In x l.
Proof.
  induction l as [|y l IH]; simpl; [tauto|].
  rewrite insert_by_In, IH. intuition congruence.
Qed.

(** The first element after sorting has the greatest key. *)
Lemma sort_by_head_max l h :
  head (sort_by cmp l) = Some h -> In h l /\ forall y, In y l -> key y <= key h.
Proof.
  intros Hh. split.
  { apply sort_by_In. destruct (sort_by cmp l); simplify_eq/=. by left. }
  revert h Hh. induction l as [|x l IH]; intros h Hh y Hy; [destruct Hy|].
  simpl in Hh. destruct (sort_by cmp l) as [|h' s] eqn:Hs.
  - simpl in Hh. simplify_eq. destruct Hy as [->|Hy]; [lia|].
    apply sort_by_In in Hy. rewrite Hs in Hy. destruct Hy.
  - specialize (IH h' eq_refl). simpl in Hh. unfold cmp in Hh at 1.
    destruct (Z.leb_spec (key h' - key x) 0); simplify_eq/=.
    + destruct Hy as [->|Hy]; [lia|]. specialize (IH _ Hy). lia.
    + destruct Hy as [->|Hy]; [lia|]. by apply IH.
Qed.

Lemma sort_by_head_None l : head (sort_by cmp l) = None -> l = [].
Proof.
  destruct l as [|x l]; [done|]. simpl. intros H.
  assert (Hin : In x (insert_by cmp x (sort_by cmp l))) by (apply insert_by_In; by left).
  destruct (insert_by cmp x (sort_by cmp l)); [destruct Hin | discriminate].
Qed.
End SortLemmas.

Lemma stat_all_In w dir names its :
  stat_all w dir names = Some its ->
  forall name t, In (name, t) its <-> In name names /\ mtimeMs w dir name = Some t.
Proof.
  unfold stat_all. rewrite mapM_Some. induction 1 as [|n it names its Hn _ IH].
  - simpl. tauto.
  - intros name t. simpl. rewrite IH.
    destruct (mtimeMs w dir n) as [tn|] eqn:Htn; simplify_eq/=.
    split.
    + intros [Heq|[? ?]]; [simplify_eq; auto | auto].
    + intros [[->|Hin] Ht]; [left; congruence | right; auto].
Qed.

Lemma stat_all_total w dir names :
  (forall name, In name names -> is_Some (mtimeMs w dir name)) ->
  is_Some (stat_all w dir names).
Proof.
  unfold stat_all. induction names as [|n names IH]; intros H; [by eexists|].
  destruct (H n) as [t Ht]; [by left|].
  destruct IH as [its Hits]; [intros; apply H; by right|].
  exists ((n, t) :: its). apply mapM_Some. constructor.
  - by rewrite Ht.
  - by apply mapM_Some.
Qed.

Lemma isUuidDirName_nonempty name : isUuidDirName name = true -> nonempty name = true.
Proof. destruct name; [discriminate | done]. Qed.

Lemma findLatest_spec w dir since entries :
  since <> 0 ->
  readdirSync w dir = Some entries ->
  (forall name, In name entries -> isUuidDirName name = true ->
                is_Some (mtimeMs w dir name)) ->
  match findLatestUuidFromRecordingsSince w dir (Some since) with
  | Some name =>
      exists t, qualifies w dir entries since name t
                /\ forall name' t', qualifies w dir entries since name' t' -> t' <= t
  | None => forall name t, ~ qualifies w dir entries since name t
  end.
Proof.
  intros Hs Hdir Hstat. unfold findLatestUuidFromRecordingsSince. rewrite Hdir.
  destruct (stat_all_total w dir (List.filter isUuidDirName entries)) as [its Hits].
  { intros name [? ?]%filter_In. auto. }
  rewrite Hits.
  assert (Hfresh : forall name t,
             In (name, t) (List.filter (is_fresh (Some since)) its)
             <-> qualifies w dir entries since name t).
  { intros name t. rewrite filter_In, (stat_all_In _ _ _ _ Hits), filter_In.
    unfold qualifies, is_fresh, truthy_num. simpl.
    destruct (Z.eqb_spec since 0); [contradiction|]. simpl.
    rewrite Z.leb_le. tauto. }
  destruct (head _) as [[name t]|] eqn:Hh; simpl.
  - apply (sort_by_head_max snd) in Hh as [Hin Hmax].
    exists t. split; [by apply Hfresh|].
    intros name' t' Hq. apply Hfresh in Hq. apply (Hmax (name', t') Hq).
  - apply (sort_by_head_None snd) in Hh. intros name t Hq.
    apply Hfresh in Hq. rewrite Hh in Hq. destruct Hq.
Qed.

Lemma close_finish_FX cfg now id ce se st : FX (close_finish cfg now id ce se st) = FX st.
Proof.
  unfold close_finish.
  destruct (_ && _ && _); destruct_and? ;
    match goal with |- FX (pushLog ?n ?i ?l ?s) = _ =>
      destruct (pushLog_frame n i l s) as (_ & _ & ->) end; done.
Qed.

(** C8, as amended: on a clean exit with no identifier read from the output
    the handler sleeps 500 ms and then scans the recordings directory of the
    job; provided the directory can be read and each of its identifier-shaped
    entries can be stat'ed, among the entries whose name has the identifier
    shape and whose modification time is at or after the job start minus
    5000 ms, one with the greatest modification time becomes the identifier,
    and when no entry qualifies the identifier stays as it was. *)
Theorem fallback_scan_picks_latest w cfg now later id code signal st since entries :
  let j0 := getJob id st in
  let dir := or_str (Job.recordingsDir j0) (DEFAULT_RECORDINGS_DIR cfg) in
  let st' := on_close w cfg now later id code signal st in
  truthy_str (Job.uuid j0) = false ->
  codeEff st id code = Some 0 ->
  truthy_str (sigEff st id signal) = false ->
  or_num (Job.startedAt j0) (Job.createdAt j0) = Some since -> since <> 0 ->
  readdirSync w dir = Some entries ->
  (forall name, In name entries -> isUuidDirName name = true ->
                is_Some (mtimeMs w dir name)) ->
  FX st' = FX st ++ [FxSleep 500; FxScan dir]
  /\ ((exists name t, qualifies w dir entries since name t) ->
      exists name t,
        Job.uuid (getJob id st') = Some name
        /\ qualifies w dir entries since name t
        /\ forall name' t', qualifies w dir entries since name' t' -> t' <= t)
  /\ ((forall name t, ~ qualifies w dir entries since name t) ->
      Job.uuid (getJob id st') = Job.uuid j0).
Proof.
  cbv zeta. intros Hu Hc Hs Hsince Hne Hdir Hstat.
  unfold on_close. rewrite !getJob_close_begin.
  assert (Hscan : needs_scan (getJob id st) (codeEff st id code) (sigEff st id signal) = true).
  { unfold needs_scan, is_zero. rewrite Hu, Hc, Hs. done. }
  rewrite Hscan.
  destruct (close_finish_spec cfg later id (codeEff st id code) (sigEff st id signal)
              (close_scan w cfg later id (getJob id st)
                          (emit (FxSleep 500) (close_begin id st)))) as (-> & _).
  rewrite close_finish_FX. unfold close_scan. rewrite Hsince.
  pose proof (findLatest_spec w _ since entries Hne Hdir Hstat) as Hfind.
  set (dir := or_str _ _) in *.
  destruct (findLatestUuidFromRecordingsSince w dir (Some since)) as [name|].
  - destruct Hfind as (t & Hq & Hmax).
    rewrite (isUuidDirName_nonempty name) by apply Hq.
    rewrite getJob_setJob_. simpl. split; [cbn [FX emit setJob_ setJob fst set_JOBS]; by rewrite <- app_assoc|]. split.
    + intros _. exists name, t. done.
    + intros Hno. destruct (Hno _ _ Hq).
  - split; [cbn [FX emit setJob_ setJob fst set_JOBS]; by rewrite <- app_assoc|]. split.
    + intros (name & t & Hq). destruct (Hfind _ _ Hq).
    + done.
Qed.

Lemma fallback_scan_picks_latest_witness :
  let w := Sample.with_recordings in
  let entries := [Sample.U_stale; Sample.U1; "notes.txt"; Sample.U2] in
  let st' := on_close w Sample.cfg 200000 200500 "j" (Some 0) None Sample.st_quiet in
  FX st' = FX Sample.st_quiet ++ [FxSleep 500; FxScan "/recordings"]
  /\ ((exists name t, qualifies w "/recordings" entries 100000 name t) ->
      exists name t,
        Job.uuid (getJob "j" st') = Some name
        /\ qualifies w "/recordings" entries 100000 name t
        /\ forall name' t', qualifies w "/recordings" entries 100000 name' t' -> t' <= t)
  /\ ((forall name t, ~ qualifies w "/recordings" entries 100000 name t) ->
      Job.uuid (getJob "j" st') = Job.uuid (getJob "j" Sample.st_quiet)).
Proof.
  cbv zeta.
  apply (fallback_scan_picks_latest Sample.with_recordings Sample.cfg 200000 200500
           "j" (Some 0) None Sample.st_quiet 100000
           [Sample.U_stale; Sample.U1; "notes.txt"; Sample.U2]);
    try (vm_compute; reflexivity); try discriminate.
  intros name Hin _. simpl in Hin.
  destruct Hin as [<-|[<-|[<-|[<-|[]]]]]; vm_compute; eauto.
Defined.

Example fallback_scan_sample :
  let st' := on_close Sample.with_recordings Sample.cfg 200000 200500 "j"
                      (Some 0) None Sample.st_quiet in
  Job.uuid (getJob "j" st') = Some Sample.U2 /\ Job.status (getJob "j" st') = Some Done.
Proof. vm_compute. done. Qed.

(** C8, the claim as stated fails: the scan sits in one [try] block, so one
    identifier-shaped entry that cannot be stat'ed makes it return nothing.
    In a directory holding a dangling entry beside an entry modified at
    120000, for a job started at 100000, the second entry qualifies, yet the
    job is left without identifier and ends in [completed_without_uuid]. *)
Lemma fallback_scan_misses_qualifying_entry :
  let w := Dangling.world in
  let entries := [Sample.U1; Sample.U2] in
  let st' := on_close w Sample.cfg 200000 200500 "j" (Some 0) None Sample.st_quiet in
  readdirSync w "/recordings" = Some entries
  /\ qualifies w "/recordings" entries 100000 Sample.U1 120000
  /\ (forall name' t', qualifies w "/recordings" entries 100000 name' t' -> t' <= 120000)
  /\ findLatestUuidFromRecordingsSince w "/recordings" (Some 100000) = None
  /\ Job.uuid (getJob "j" st') = None
  /\ Job.status (getJob "j" st') = Some Error
  /\ Job.error (getJob "j" st') = Some "completed_without_uuid"
  /\ ~ (exists name t, Job.uuid (getJob "j" st') = Some name
                       /\ qualifies w "/recordings" entries 100000 name t).
Proof.
  cbv zeta. split; [reflexivity|]. split.
  { unfold qualifies. repeat split; try (vm_compute; reflexivity).
    - by left.
    - vm_compute. discriminate. }
  split.
  { intros name' t' (Hin & _ & Ht & _). simpl in Hin.
    destruct Hin as [<-|[<-|[]]]; vm_compute in Ht; simplify_eq. lia. }
  split; [vm_compute; reflexivity|].
  assert (Hu : Job.uuid (getJob "j" (on_close Dangling.world Sample.cfg 200000 200500 "j"
                                              (Some 0) None Sample.st_quiet)) = None)
    by (vm_compute; reflexivity).
  split; [exact Hu|]. split; [vm_compute; reflexivity|]. split; [vm_compute; reflexivity|].
  intros (name & t & Hname & _). rewrite Hu in Hname. discriminate.
Qed.

(** ** The stop cascade *)

Lemma add_fx_nil st : add_fx [] st = st.
Proof. destruct st. unfold add_fx. simpl. by rewrite app_nil_r. Qed.

Lemma add_fx_add a b st : add_fx b (add_fx a st) = add_fx (a ++ b) st.
Proof. unfold add_fx. simpl. by rewrite app_assoc. Qed.

Lemma emit_add_fx e fx st : emit e (add_fx fx st) = add_fx (fx ++ [e]) st.
Proof. unfold emit, add_fx. simpl. by rewrite app_assoc. Qed.

Lemma try_tools_eq w c p tools st :
  try_tools w c p tools st
  = (add_fx ((fun t => FxDockerExec t c) <$> tools_tried w c p tools) st,
     tools_out w c p tools).
Proof.
  revert st. induction tools as [|t tools IH]; intros st; simpl.
  - by rewrite add_fx_nil.
  - destruct (dockerExec w t c p); [done|].
    rewrite IH. f_equal. unfold emit, add_fx. simpl. by rewrite <- app_assoc.
Qed.

Section Behaves.
Variables (w : World) (cfg : Config) (now : Z) (id : string) (job : Job.t) (st : State).

Lemma behaves_base :
  behaves now id (outcome_base w cfg job) (stop_via_base w cfg now id (payload_of job)) st.
Proof.
  intros fx0. unfold outcome_base, stop_via_base, httpPostNoKeepAlive.
  destruct (payload_of job) as [p|]; [|done]. simpl.
  destruct (nonempty (MEET_BOT_BASE cfg)); [|done].
  rewrite emit_add_fx. by destruct (httpPost w _ p).
Qed.

Lemma behaves_exec :
  behaves now id (outcome_exec w job) (stop_via_exec w now id job (payload_of job)) st.
Proof.
  intros fx0. unfold outcome_exec, stop_via_exec, dockerExecStopRecord.
  destruct (payload_of job) as [p|]; [|done]. osimpl.
  destruct (truthy_str (Job.containerName job)); [|done].
  fold all_tools. rewrite try_tools_eq, add_fx_add.
  by destruct (tools_out w _ p all_tools).
Qed.

Lemma behaves_container_http :
  behaves now id (outcome_container_http w job)
          (stop_via_container_http w now id job (payload_of job)) st.
Proof.
  intros fx0. unfold outcome_container_http, stop_via_container_http,
    tryHttpStopByContainer, httpPostNoKeepAlive.
  destruct (payload_of job) as [p|]; [|done]. simpl.
  destruct (truthy_str (Job.containerName job)); [|done].
  rewrite !emit_add_fx.
  destruct (truthy_num (dockerGetHostPort8080 w _)); [destruct (httpPost w (UrlHostPort _) p)|];
    simpl; rewrite ?emit_add_fx, <- ?app_assoc; simpl; try done;
    (destruct (truthy_str (dockerGetIP w _));
     [destruct (httpPost w (UrlContainerIP _) p)|]; simpl;
     rewrite ?emit_add_fx, <- ?app_assoc; simpl; done).
Qed.

Lemma behaves_docker_stop :
  behaves now id (outcome_docker_stop w cfg job) (stop_via_docker_stop w cfg now id job) st.
Proof.
  intros fx0. unfold outcome_docker_stop, stop_via_docker_stop. simpl.
  destruct (ALLOW_DOCKER_STOP cfg && truthy_str (Job.containerName job)); [|done].
  rewrite emit_add_fx. by destruct (dockerStop w _).
Qed.

Lemma behaves_local_kill :
  behaves now id (outcome_local_kill w false (CHILDREN st !! id))
          (stop_via_local_kill w now id) st.
Proof.
  intros fx0. unfold outcome_local_kill, stop_via_local_kill. simpl.
  destruct (CHILDREN st !! id) as [ch|]; [|done]. simpl.
  rewrite !emit_add_fx, <- app_assoc. done.
Qed.
End Behaves.

(** A chain of strategies, each tried when the ones before it fell through. *)
Lemma cascade_runs now id st tbl (ss : list Strategy) :
  Forall2 (fun o S => behaves now id o S st) tbl ss ->
  forall fx0,
    foldr orElse (fun s => (s, None)) ss (add_fx fx0 st) =
    let st' := add_fx (fx0 ++ flat_map o_fx (attempted tbl)) st in
    match List.find wins tbl with
    | Some o => (stopping now id st', Some (Stopped (o_http o) (o_via o) (o_detail o)))
    | None => (st', None)
    end.
Proof.
  induction 1 as [|o S tbl ss Ho _ IH]; intros fx0; simpl.
  - by rewrite app_nil_r.
  - unfold orElse at 1. rewrite (Ho fx0). unfold wins at 1.
    destruct (o_applies o); simpl; [destruct (o_succeeds o); simpl|].
    + by rewrite app_nil_r.
    + rewrite IH. cbv zeta. by rewrite <- app_assoc.
    + by rewrite IH.
Qed.

Lemma table_tagged w cfg d job child :
  Forall tagged (strategy_table w cfg d job child).
Proof.
  unfold strategy_table, tagged.
  repeat apply Forall_cons_2; try apply Forall_nil_2.
  - unfold outcome_base. destruct (payload_of job); simpl; auto.
  - unfold outcome_exec. destruct (payload_of job); osimpl; [|by apply Forall_nil_2].
    apply Forall_fmap, Forall_forall. done.
  - unfold outcome_container_http. destruct (payload_of job) as [p|]; simpl; auto.
    repeat apply Forall_cons_2; try done.
    destruct (truthy_num _); simpl;
      repeat match goal with |- context [if ?b then _ else _] => destruct b end;
      simpl; auto.
  - simpl. auto.
  - unfold outcome_local_kill. destruct child; simpl; auto.
Qed.

Lemma orElse_ext (S X Y : Strategy) st :
  (forall s, X s = Y s) -> orElse S X st = orElse S Y st.
Proof. intros H. unfold orElse. destruct (S st) as [s [r|]]; [done | apply H]. Qed.

Lemma orElse_none (S : Strategy) st : orElse S (fun s => (s, None)) st = S st.
Proof. unfold orElse. by destruct (S st) as [s [r|]]. Qed.

Lemma stop_handler_cascade w cfg now id st job :
  JOBS st !! id = Some job ->
  stop_handler w cfg now id st =
  match foldr orElse (fun s => (s, None))
              [ stop_via_base w cfg now id (payload_of job);
                stop_via_exec w now id job (payload_of job);
                stop_via_container_http w now id job (payload_of job);
                stop_via_docker_stop w cfg now id job;
                stop_via_local_kill w now id ] st with
  | (st', Some r) => (st', r)
  | (st', None) => (st', Unavailable)
  end.
Proof.
  intros Hj. unfold stop_handler. rewrite Hj. cbv zeta. simpl foldr.
  symmetry.
  erewrite orElse_ext; [reflexivity|]. intros s1.
  erewrite orElse_ext; [reflexivity|]. intros s2.
  erewrite orElse_ext; [reflexivity|]. intros s3.
  erewrite orElse_ext; [reflexivity|]. intros s4.
  apply orElse_none.
Qed.

(** C3, as amended: the handler tries the five strategies in their fixed
    order; the calls it makes are those of the applicable strategies up to
    and including the first that succeeds, which sets the status to
    [stopping] and is named in the response; when the configured base
    answers nothing else is called.  The local signal counts as a success
    whenever a process handle exists, so the request fails with
    [stop_unavailable] exactly when none of the first four strategies applies
    and succeeds and there is no handle. *)
Theorem stop_cascade_first_success w cfg now id st job :
  JOBS st !! id = Some job ->
  let tbl := strategy_table w cfg false job (CHILDREN st !! id) in
  let st' := fst (stop_handler w cfg now id st) in
  let resp := snd (stop_handler w cfg now id st) in
  map o_via tbl = [ stop_record_http_base; stop_record_docker_exec;
                    stop_record_http_container; docker_stop_name; local_kill ]
  /\ Forall tagged tbl
  /\ FX st' = FX st ++ flat_map o_fx (attempted tbl)
  /\ match List.find wins tbl with
     | Some o => resp = Stopped (o_http o) (o_via o) (o_detail o)
                 /\ Job.status (getJob id st') = Some Stopping
     | None => resp = Unavailable /\ JOBS st' = JOBS st
     end
  /\ (wins (outcome_base w cfg job) = true ->
      exists p data,
        payload_of job = Some p
        /\ FX st' = FX st ++ [FxHttpPost (UrlBase (rstrip_slashes (MEET_BOT_BASE cfg))) p]
        /\ resp = Stopped 200 stop_record_http_base data)
  /\ (resp = Unavailable <->
      wins (outcome_base w cfg job) = false
      /\ wins (outcome_exec w job) = false
      /\ wins (outcome_container_http w job) = false
      /\ wins (outcome_docker_stop w cfg job) = false
      /\ CHILDREN st !! id = None).
Proof.
  intros Hj. cbv zeta.
  split; [unfold strategy_table, outcome_base, outcome_exec, outcome_container_http,
            outcome_local_kill;
          destruct (payload_of job), (CHILDREN st !! id); reflexivity|].
  split; [apply table_tagged|].
  rewrite (stop_handler_cascade w cfg now id st job Hj).
  match goal with |- context [foldr orElse ?z ?ss st] =>
    assert (HF : Forall2 (fun o S => behaves now id o S st)
                   (strategy_table w cfg false job (CHILDREN st !! id)) ss);
    [|pose proof (cascade_runs now id st _ ss HF []) as E] end.
  { unfold strategy_table. repeat apply Forall2_cons_2; try apply Forall2_nil_2.
    - apply behaves_base. - apply behaves_exec. - apply behaves_container_http.
    - apply behaves_docker_stop. - apply behaves_local_kill. }
  rewrite add_fx_nil in E. rewrite E; clear E HF.
  cbv zeta. rewrite app_nil_l.
  set (tbl := strategy_table w cfg false job (CHILDREN st !! id)).
  assert (Hfind : List.find wins tbl = None <->
            wins (outcome_base w cfg job) = false
            /\ wins (outcome_exec w job) = false
            /\ wins (outcome_container_http w job) = false
            /\ wins (outcome_docker_stop w cfg job) = false
            /\ CHILDREN st !! id = None).
  { subst tbl. unfold strategy_table. simpl.
    destruct (wins (outcome_base w cfg job)); [intuition discriminate|].
    destruct (wins (outcome_exec w job)); [intuition discriminate|].
    destruct (wins (outcome_container_http w job)); [intuition discriminate|].
    destruct (wins (outcome_docker_stop w cfg job)); [intuition discriminate|].
    destruct (CHILDREN st !! id); simpl; intuition discriminate. }
  split; [by destruct (List.find wins tbl)|]. split; [|split].
  - destruct (List.find wins tbl) as [o|]; simpl; [|done].
    split; [done|]. unfold stopping. by rewrite getJob_setJob_.
  - intros Hb. subst tbl. unfold strategy_table. simpl. rewrite Hb.
    revert Hb. unfold wins, outcome_base.
    destruct (payload_of job) as [p|]; simpl; [|done].
    intros [-> ->]%andb_true_iff. simpl. by eexists _, _.
  - rewrite <- Hfind. destruct (List.find wins tbl); simpl; intuition discriminate.
Qed.

Lemma stop_cascade_first_success_witness :
  let st := Sample.st_identified in
  let r := stop_handler Sample.base_up Sample.cfg_base 3000 "j" st in
  exists p data,
    payload_of (getJob "j" st) = Some p
    /\ FX (fst r) = FX st ++ [FxHttpPost (UrlBase "http://bot:8080") p]
    /\ snd r = Stopped 200 stop_record_http_base data.
Proof.
  cbv zeta.
  destruct (stop_cascade_first_success Sample.base_up Sample.cfg_base 3000 "j"
              Sample.st_identified (getJob "j" Sample.st_identified))
    as (_ & _ & _ & _ & Hbase & _); [vm_compute; reflexivity|].
  apply Hbase. vm_compute. reflexivity.
Defined.

(** C3, the claim as stated fails: the job has no container name, no base
    is configured and [process.kill] throws, so the only applicable strategy,
    the local signal, fails to deliver; the request is still answered with
    success through [local_kill] and the status becomes [stopping]. *)
Lemma stop_unavailable_not_exact :
  let st := Sample.st_running in
  let tbl := strategy_table Sample.silent Sample.cfg true
                            (getJob "j" st) (CHILDREN st !! "j") in
  let r := stop_handler Sample.silent Sample.cfg 3000 "j" st in
  Forall (fun o => o_applies o = true -> o_succeeds o = false) tbl
  /\ snd r = Stopped 202 local_kill "failed_to_signal_child"
  /\ snd r <> Unavailable
  /\ Job.status (getJob "j" (fst r)) = Some Stopping.
Proof.
  cbv zeta. split; [|vm_compute; repeat split; congruence].
  vm_compute. repeat apply Forall_cons_2; try apply Forall_nil_2; congruence.
Qed.

(** ** The log stream *)

Lemma list_ascii_app a b :
  list_ascii_of_string (a +:+ b) = list_ascii_of_string a ++ list_ascii_of_string b.
Proof. induction a as [|c a IH]; simpl; [done | by rewrite IH]. Qed.

Lemma str_app_assoc a b c : a +:+ (b +:+ c) = (a +:+ b) +:+ c.
Proof.
  induction a as [|x a IH]; [done|].
  change (String x (a +:+ (b +:+ c)) = String x ((a +:+ b) +:+ c)). by rewrite IH.
Qed.


Lemma not_a_logs_path pre suffix c0 c1 rest :
  rev (list_ascii_of_string suffix) = c0 :: c1 :: rest ->
  (c0, c1) <> ("s", "g")%char ->
  ends_with "/logs" (pre +:+ suffix) = false.
Proof.
  intros Hrev Hne. unfold ends_with. apply bool_decide_eq_false.
  rewrite list_ascii_app, rev_app_distr, Hrev.
  change (rev (list_ascii_of_string "/logs")) with ["s"; "g"; "o"; "l"; "/"]%char.
  cbn [strip_prefix app char_eq].
  destruct (Ascii.eqb_spec "s" c0) as [<-|]; [|simpl; intros [? ?]; discriminate].
  destruct (Ascii.eqb_spec "g" c1) as [<-|]; [congruence|simpl; intros [? ?]; discriminate].
Qed.

Lemma key_check_guards_route cfg r key :
  r <> RHealth -> (forall id, r <> RLogs id) -> key <> Some (API_KEY cfg) ->
  api_key_check cfg (path_of r) key = Unauthorized.
Proof.
  intros Hh Hl Hk. unfold api_key_check.
  rewrite (bool_decide_eq_false_2 _ Hk). simpl negb. rewrite orb_true_r.
  destruct r as [| |id|id| |id]; try congruence; try reflexivity.
  - unfold path_of. rewrite str_app_assoc.
    rewrite (not_a_logs_path ("/jobs/" +:+ id) "/status" "s" "u"
               (list_ascii_of_string "tats/")) by (done || congruence).
    by rewrite andb_false_r.
  - unfold path_of. rewrite str_app_assoc.
    rewrite (not_a_logs_path ("/jobs/" +:+ id) "/stop" "p" "o"
               (list_ascii_of_string "ts/")) by (done || congruence).
    by rewrite andb_false_r.
Qed.









(** ** Escape sequences and extraction *)

Lemma remove_go_no_match ci r inp :
  search ci r inp = None -> remove_go ci r O inp = inp.
Proof.
  induction inp as [|c tl IH]; [done|]. simpl.
  destruct (exec_at ci r (c :: tl)); [discriminate|].
  intros H. by rewrite IH.
Qed.

Lemma stripAnsi_fixpoint s : has_sgr s = false -> stripAnsi s = s.
Proof.
  unfold has_sgr, stripAnsi, remove_all. intros H%bool_decide_eq_false.
  rewrite remove_go_no_match.
  - apply string_of_list_ascii_of_string.
  - destruct (search false SGR (list_ascii_of_string s)); [destruct H; eauto | done].
Qed.

Lemma strip_prefix_head ci a p inp rest' :
  strip_prefix ci (a :: p) inp = Some rest' ->
  exists b tl, inp = b :: tl /\ char_eq ci a b = true.
Proof.
  destruct inp as [|b tl]; simpl; [discriminate|].
  destruct (char_eq ci a b) eqn:E; [eauto | discriminate].
Qed.

(** A match of the SGR pattern starts with the escape character. *)
Lemma sgr_starts_with_esc inp x : exec_at false SGR inp = Some x -> head inp = Some ESC.
Proof.
  unfold exec_at, SGR. cbn [Regex.run].
  change (list_ascii_of_string (String ESC "[")) with [ESC; "["%char].
  destruct (strip_prefix false [ESC; "["%char] inp) as [r|] eqn:E; [|discriminate].
  apply strip_prefix_head in E as (b & tl & -> & Hb). intros _. simpl.
  unfold char_eq in Hb. by apply Ascii.eqb_eq in Hb as <-.
Qed.

Lemma no_esc_no_sgr s : ESC ∉ list_ascii_of_string s -> has_sgr s = false.
Proof.
  unfold has_sgr. intros H. apply bool_decide_eq_false. intros [x Hx].
  induction (list_ascii_of_string s) as [|c tl IH]; simpl in Hx.
  - destruct (exec_at false SGR []) eqn:E; [|discriminate].
    by apply sgr_starts_with_esc in E.
  - destruct (exec_at false SGR (c :: tl)) eqn:E.
    + apply sgr_starts_with_esc in E. simpl in E. simplify_eq. apply H. by left.
    + apply IH; [|done]. intros Hin. apply H. by right.
Qed.

(** C10, as amended: when one pass of [stripAnsi] leaves no SGR sequence in
    the line, extraction from the line and from the stripped line agree. *)
Theorem extract_after_strip line :
  has_sgr (stripAnsi line) = false ->
  extractUuidFrom line = extractUuidFrom (stripAnsi line).
Proof. intros H. unfold extractUuidFrom. by rewrite (stripAnsi_fixpoint _ H). Qed.

Lemma extract_after_strip_witness :
  extractUuidFrom Nested.coloured = extractUuidFrom (stripAnsi Nested.coloured)
  /\ extractUuidFrom Nested.coloured = Some Sample.U1.
Proof.
  split; [apply (extract_after_strip Nested.coloured) | ]; vm_compute; reflexivity.
Defined.

(** The same holds when the stripped line has no escape character at all. *)
Corollary extract_after_strip_no_esc line :
  ESC ∉ list_ascii_of_string (stripAnsi line) ->
  extractUuidFrom line = extractUuidFrom (stripAnsi line).
Proof.
  intros H. unfold extractUuidFrom.
  by rewrite (stripAnsi_fixpoint (stripAnsi line)) by by apply no_esc_no_sgr.
Qed.

Lemma strip_prefix_length ci p inp r :
  strip_prefix ci p inp = Some r -> length inp = (length p + length r)%nat.
Proof.
  revert inp. induction p as [|a p IH]; intros inp; simpl.
  - by intros [= ->].
  - destruct inp as [|b inp]; [discriminate|].
    destruct (char_eq ci a b); [|discriminate]. intros H. simpl. by rewrite (IH _ H).
Qed.

Lemma rep_greedy_suffix {R} p min max inp (k : chars -> option R) x :
  rep_greedy p min max inp k = Some x ->
  exists r, (length r <= length inp)%nat /\ k r = Some x.
Proof.
  revert min max. induction inp as [|c tl IH]; intros min max; simpl.
  - destruct min; [|discriminate]. intros H. exists []. by split.
  - assert (Hstop : match min with O => k (c :: tl) | S _ => None end = Some x ->
                    exists r, (length r <= S (length tl))%nat /\ k r = Some x).
    { destruct min; [|discriminate]. intros H. exists (c :: tl). by split. }
    destruct (p c && _); [|exact Hstop].
    destruct (rep_greedy p (Nat.pred min) (Nat.pred <$> max) tl k) eqn:E; [|exact Hstop].
    intros [= ->]. destruct (IH _ _ E) as (r & Hr & Hk). exists r. split; [lia | done].
Qed.

(** A match of the SGR pattern is never empty. *)
Lemma sgr_consumes inp x :
  exec_at false SGR inp = Some x -> (length (rest x) < length inp)%nat.
Proof.
  unfold exec_at, SGR. cbn [Regex.run].
  destruct (strip_prefix false _ inp) as [r|] eqn:E; [|discriminate].
  apply strip_prefix_length in E. intros H.
  apply rep_greedy_suffix in H as (r' & Hr' & H).
  destruct (strip_prefix false _ r') as [r''|] eqn:E'; [|discriminate].
  apply strip_prefix_length in E'. simplify_eq/=. lia.
Qed.

Lemma remove_go_drops_escapes inp : forall skip,
  (forall pre suf, inp = pre ++ ESC :: suf -> (skip <= length pre)%nat ->
                   is_Some (exec_at false SGR (ESC :: suf))) ->
  ESC ∉ remove_go false SGR skip inp.
Proof.
  induction inp as [|c tl IH]; intros skip Hwf; simpl; [apply not_elem_of_nil|].
  destruct skip as [|n].
  - assert (Htl : forall m pre suf, tl = pre ++ ESC :: suf -> (m <= length pre)%nat ->
                                    is_Some (exec_at false SGR (ESC :: suf))).
    { intros m pre suf -> _. apply (Hwf (c :: pre)); [done | lia]. }
    destruct (exec_at false SGR (c :: tl)) as [x|] eqn:E.
    + pose proof (sgr_consumes _ _ E) as Hlen. simpl in Hlen.
      destruct (S (length tl) - length (rest x))%nat as [|n'] eqn:En; [lia|].
      apply IH, Htl.
    + apply not_elem_of_cons. split; [|apply IH, Htl].
      intros <-. destruct (Hwf [] tl eq_refl) as [x Hx]; [simpl; lia|]. congruence.
  - apply IH. intros pre suf -> Hn. apply (Hwf (c :: pre)); [done | simpl; lia].
Qed.

(** In particular when every escape character of the line begins a
    complete SGR sequence. *)
Corollary extract_when_escapes_complete line :
  escapes_complete line ->
  extractUuidFrom line = extractUuidFrom (stripAnsi line).
Proof.
  intros Hwf. apply extract_after_strip_no_esc.
  unfold stripAnsi, remove_all. rewrite list_ascii_of_string_of_list_ascii.
  apply remove_go_drops_escapes. intros pre suf Heq _. by apply (Hwf pre suf).
Qed.

Example coloured_line_complete : escapes_complete Nested.coloured.
Proof.
  intros pre suf Heq.
  assert (Hin : In suf (tails_after ESC (list_ascii_of_string Nested.coloured))).
  { rewrite Heq. clear Heq. induction pre as [|a pre IH]; simpl.
    - destruct (Ascii.eqb_spec ESC ESC); [by left | done].
    - destruct (Ascii.eqb a ESC); [right|]; exact IH. }
  vm_compute in Hin. destruct Hin as [<-|[<-|[]]]; vm_compute; eauto.
Qed.



(** C10, the claim as stated fails: removing the inner sequence of
    [ESC [ ESC [ 0 m 0 m] leaves [ESC [ 0 m], which the single pass does not
    remove; no pattern matches the line, while the line with the sequences
    removed yields the identifier. *)
Lemma extract_not_invariant_under_strip :
  stripAnsi Nested.line = "session ID: " +:+ String ESC "[0m" +:+ Sample.U1
  /\ extractUuidFrom Nested.line = None
  /\ extractUuidFrom (stripAnsi Nested.line) = Some Sample.U1
  /\ extractUuidFrom Nested.line <> extractUuidFrom (stripAnsi Nested.line).
Proof. vm_compute. repeat split; congruence. Qed.

(** ** Discovery *)

Lemma foldl_inv {A B} (f : A -> B -> A) (I : A -> Prop) l a :
  I a -> (forall a b, I a -> I (f a b)) -> I (foldl f a l).
Proof. revert a. induction l; simpl; auto. Qed.

Section Discovery.
Variables (w : World) (now : Z) (id : string).

Lemma stable_refl j : stable j j.
Proof. by repeat split. Qed.

Lemma stable_trans j1 j2 j3 : stable j1 j2 -> stable j2 j3 -> stable j1 j3.
Proof.
  intros (?&?&?&?&?&?) (?&?&?&?&?&?). repeat split; congruence.
Qed.

Lemma stable_setJob patch st :
  Job.status patch = None -> Job.error patch = None -> Job.exitCode patch = None ->
  Job.signal patch = None -> Job.clients patch = None -> Job.startedAt patch = None ->
  stable (getJob id st) (getJob id (setJob_ now id patch st)).
Proof.
  intros H1 H2 H3 H4 H5 H6. rewrite getJob_setJob_. unfold stable. simpl.
  rewrite H1, H2, H3, H4, H5, H6. done.
Qed.

Lemma stable_pushLog line st : stable (getJob id st) (getJob id (pushLog now id line st)).
Proof. rewrite getJob_pushLog. by repeat split. Qed.

Lemma stable_ensure cname n st :
  stable (getJob id st) (getJob id (ensureHostPort8080 w now id cname n st)).
Proof.
  unfold ensureHostPort8080. destruct (nonempty cname); [|apply stable_refl].
  change (getJob id st) with (getJob id (emit (FxDockerPort cname) st)) at 1.
  destruct (dockerGetHostPort8080 w cname).
  - eapply stable_trans; [|apply stable_pushLog]. by apply stable_setJob.
  - destruct (n <? 3)%nat; apply stable_refl.
Qed.

Lemma stable_scan_uuid jcur line st :
  stable (getJob id st) (getJob id (scan_uuid now id jcur line st)).
Proof.
  unfold scan_uuid. destruct (negb _); [|apply stable_refl].
  destruct (extractUuidFrom line) as [u|]; [|apply stable_refl].
  destruct (nonempty u); [by apply stable_setJob | apply stable_refl].
Qed.

Lemma stable_scan_container jcur line st :
  stable (getJob id st) (getJob id (scan_container w now id jcur line st)).
Proof.
  unfold scan_container. destruct (match_group1 _ _ _) as [cname|]; [|apply stable_refl].
  destruct (negb (truthy_str (Job.containerName jcur))); [|apply stable_refl].
  eapply stable_trans; [|apply stable_ensure].
  destruct (_ && _).
  - repeat (eapply stable_trans; [|by apply stable_setJob]). apply stable_refl.
  - repeat (eapply stable_trans; [|by apply stable_setJob]). apply stable_refl.
Qed.

Lemma stable_scan_line line st :
  stable (getJob id st) (getJob id (scan_line w now id st line)).
Proof.
  unfold scan_line. eapply stable_trans;
    [apply stable_scan_uuid | apply stable_scan_container].
Qed.

Lemma stable_onData src raw st :
  stable (getJob id st) (getJob id (onData w now id src raw st)).
Proof.
  unfold onData.
  apply (foldl_inv _ (fun s => stable (getJob id st) (getJob id s))).
  - apply (foldl_inv _ (fun s => stable (getJob id st) (getJob id s))).
    + apply stable_refl.
    + intros s l Hs. eapply stable_trans; [exact Hs | apply stable_pushLog].
  - intros s l Hs. eapply stable_trans; [exact Hs | apply stable_scan_line].
Qed.

(** An identifier once recorded survives every later line. *)
Lemma uuid_kept_pushLog line st :
  Job.uuid (getJob id (pushLog now id line st)) = Job.uuid (getJob id st).
Proof. by rewrite getJob_pushLog. Qed.

Lemma uuid_kept_ensure cname n st :
  Job.uuid (getJob id (ensureHostPort8080 w now id cname n st)) = Job.uuid (getJob id st).
Proof.
  unfold ensureHostPort8080. destruct (nonempty cname); [|done].
  destruct (dockerGetHostPort8080 w cname).
  - by rewrite uuid_kept_pushLog, getJob_setJob_.
  - by destruct (n <? 3)%nat.
Qed.

Lemma uuid_locked_scan_line line st :
  truthy_str (Job.uuid (getJob id st)) = true ->
  Job.uuid (getJob id (scan_line w now id st line)) = Job.uuid (getJob id st).
Proof.
  intros Hu. unfold scan_line, scan_uuid, scan_container. rewrite Hu. simpl.
  destruct (match_group1 _ _ _) as [cname|]; [|done].
  destruct (negb (truthy_str (Job.containerName (getJob id st)))); [|done].
  by rewrite uuid_kept_ensure, !getJob_setJob_.
Qed.

Lemma uuid_locked_onData src raw st :
  truthy_str (Job.uuid (getJob id st)) = true ->
  Job.uuid (getJob id (onData w now id src raw st)) = Job.uuid (getJob id st).
Proof.
  intros Hu. unfold onData.
  apply (foldl_inv _ (fun s => Job.uuid (getJob id s) = Job.uuid (getJob id st))).
  - apply (foldl_inv _ (fun s => Job.uuid (getJob id s) = Job.uuid (getJob id st))).
    + done.
    + intros s l Hs. by rewrite uuid_kept_pushLog.
  - intros s l Hs. rewrite uuid_locked_scan_line; [done | by rewrite Hs].
Qed.

(** So does a container name. *)
Lemma cname_kept_pushLog line st :
  Job.containerName (getJob id (pushLog now id line st)) = Job.containerName (getJob id st).
Proof. by rewrite getJob_pushLog. Qed.

Lemma cname_locked_scan_line line st :
  truthy_str (Job.containerName (getJob id st)) = true ->
  Job.containerName (getJob id (scan_line w now id st line))
  = Job.containerName (getJob id st).
Proof.
  intros Hc. unfold scan_line, scan_uuid, scan_container. rewrite Hc. simpl.
  assert (Hk : forall jc, Job.containerName (getJob id (scan_uuid now id jc line st))
                          = Job.containerName (getJob id st)).
  { intros jc. unfold scan_uuid. destruct (negb _); [|done].
    destruct (extractUuidFrom line) as [u|]; [|done].
    destruct (nonempty u); [by rewrite getJob_setJob_ | done]. }
  destruct (match_group1 _ _ _); apply (Hk (getJob id st)).
Qed.

Lemma cname_locked_onData src raw st :
  truthy_str (Job.containerName (getJob id st)) = true ->
  Job.containerName (getJob id (onData w now id src raw st))
  = Job.containerName (getJob id st).
Proof.
  intros Hc. unfold onData.
  apply (foldl_inv _ (fun s => Job.containerName (getJob id s)
                               = Job.containerName (getJob id st))).
  - apply (foldl_inv _ (fun s => Job.containerName (getJob id s)
                                 = Job.containerName (getJob id st))).
    + done.
    + intros s l Hs. by rewrite cname_kept_pushLog.
  - intros s l Hs. rewrite cname_locked_scan_line; [done | by rewrite Hs].
Qed.
End Discovery.

(** C5, at the failing input: the first line matches an identifier pattern
    with [U1] and names a container [meetbot-U2]; [U1] is recorded by the
    first step of the loop body and then replaced by [U2] in the same
    iteration, because the second step tests the job as read before the
    first.  The final identifier is [U2], not the first match. *)
Theorem first_match_overwritten :
  let st := Sample.st_running in
  let jcur := getJob "j" st in
  let st1 := scan_uuid 2000 "j" jcur Conflict.line1 st in
  let st2 := scan_container Sample.silent 2000 "j" jcur Conflict.line1 st1 in
  let st' := onData Sample.silent 2000 "j" "[bot:stdout]" Conflict.chunk st in
  extractUuidFrom Conflict.line1 = Some Sample.U1
  /\ extractUuidFrom Conflict.line2 = Some Sample.U3
  /\ Job.uuid (getJob "j" st1) = Some Sample.U1
  /\ Job.uuid (getJob "j" st2) = Some Sample.U2
  /\ Job.uuid (getJob "j" st') = Some Sample.U2
  /\ Job.uuid (getJob "j" st') <> Some Sample.U1.
Proof. vm_compute. repeat split; congruence. Qed.

(** ** The timeout guard *)

Section GuardLemmas.
Variables (w : World) (cfg : Config) (id : string).






Lemma tick_fires now st c reason :
  CLOSURES st !! id = Some c -> armed c = true ->
  (if BOT_MAX_TIMEOUT_MS cfg <? now - guardStartedAt c then reason = "max_time_exceeded"
   else (BOT_IDLE_TIMEOUT_MS cfg <? now - lastActivity c) = true
        /\ reason = "idle_timeout") ->
  let st' := guard_tick cfg now id st in
  FX st' = FX st ++ [FxChildKill id "SIGKILL"]
  /\ Job.status (getJob id st') = Some Timeout
  /\ Job.error (getJob id st') = Some reason
  /\ (armed <$> CLOSURES st' !! id) = Some false.
Proof.
  intros Hc Ha Hr. cbv zeta. unfold guard_tick. rewrite Hc, Ha.
  destruct (BOT_MAX_TIMEOUT_MS cfg <? now - guardStartedAt c).
  - subst reason. unfold clearGuard.
    match goal with |- context [pushLog ?n ?i ?l ?s] =>
      destruct (pushLog_frame n i l s) as (_ & HC & HF);
      pose proof (getJob_pushLog n i l s) as HJ end.
    cbn [FX CLOSURES set_CLOSURES]. rewrite HF, HC.
    unfold getJob at 1 2. cbn [JOBS set_CLOSURES]. unfold getJob in HJ. rewrite HJ.
    rewrite lookup_alter_eq. simpl. rewrite lookup_insert_eq, Hc. done.
  - destruct Hr as [-> ->]. unfold clearGuard.
    match goal with |- context [pushLog ?n ?i ?l ?s] =>
      destruct (pushLog_frame n i l s) as (_ & HC & HF);
      pose proof (getJob_pushLog n i l s) as HJ end.
    cbn [FX CLOSURES set_CLOSURES]. rewrite HF, HC.
    unfold getJob at 1 2. cbn [JOBS set_CLOSURES]. unfold getJob in HJ. rewrite HJ.
    rewrite lookup_alter_eq. simpl. rewrite lookup_insert_eq, Hc. done.
Qed.



End GuardLemmas.



(** ** The status machine *)

Section StatusLemmas.
Variables (w : World) (cfg : Config) (id : string).

Lemma status_tick now st :
  status_of id (guard_tick cfg now id st) = status_of id st
  \/ status_of id (guard_tick cfg now id st) = Some Timeout.
Proof.
  unfold guard_tick, status_of. destruct (CLOSURES st !! id) as [c|] eqn:Hc; [|by left].
  destruct (armed c) eqn:Ha; [|by left]. cbv zeta.
  destruct (BOT_MAX_TIMEOUT_MS cfg <? now - guardStartedAt c) eqn:Hm.
  - right. destruct (tick_fires cfg id now st c "max_time_exceeded" Hc Ha) as (_ & H & _).
    + by rewrite Hm.
    + unfold guard_tick in H. rewrite Hc, Ha in H. cbv zeta in H. by rewrite Hm in H.
  - destruct (BOT_IDLE_TIMEOUT_MS cfg <? now - lastActivity c) eqn:Hi; [|by left].
    right. destruct (tick_fires cfg id now st c "idle_timeout" Hc Ha) as (_ & H & _).
    + by rewrite Hm.
    + unfold guard_tick in H. rewrite Hc, Ha in H. cbv zeta in H. by rewrite Hm, Hi in H.
Qed.

Lemma status_close now later code signal st :
  status_of id (on_close w cfg now later id code signal st) = Some Done
  \/ status_of id (on_close w cfg now later id code signal st) = Some Error.
Proof.
  unfold on_close, status_of.
  set (t := if needs_scan _ _ _ then later else now).
  set (st2 := if needs_scan _ _ _ then close_scan _ _ _ _ _ _ else _).
  unfold close_finish. destruct (_ && _ && _);
    rewrite getJob_pushLog, getJob_setJob_; simpl; auto.
Qed.

Lemma status_stop now st job :
  JOBS st !! id = Some job ->
  status_of id (fst (stop_handler w cfg now id st)) = status_of id st
  \/ status_of id (fst (stop_handler w cfg now id st)) = Some Stopping.
Proof.
  intros Hj. rewrite (stop_handler_cascade w cfg now id st job Hj).
  match goal with |- context [foldr orElse ?z ?ss st] =>
    assert (HF : Forall2 (fun o S => behaves now id o S st)
                   (strategy_table w cfg false job (CHILDREN st !! id)) ss);
    [|pose proof (cascade_runs now id st _ ss HF []) as E] end.
  { unfold strategy_table. repeat apply Forall2_cons_2; try apply Forall2_nil_2.
    - apply behaves_base. - apply behaves_exec. - apply behaves_container_http.
    - apply behaves_docker_stop. - apply behaves_local_kill. }
  rewrite add_fx_nil in E. rewrite E. cbv zeta.
  destruct (List.find wins _); simpl.
  - right. unfold status_of, stopping. by rewrite getJob_setJob_.
  - by left.
Qed.

Lemma status_handle st ev s :
  status_of id st = Some s ->
  exists s', status_of id (handle w cfg id st ev) = Some s' /\ writes (snd ev) s s'.
Proof.
  intros Hs. destruct ev as [now op]. unfold handle. cbn [fst snd].
  destruct op as [|src raw| |err|xc xs|later xc xs| |cname attempt]; cbn [writes].
  - exists s. split; [|done]. unfold on_spawn, status_of. by rewrite getJob_pushLog.
  - exists s. split; [|done]. unfold status_of.
    by destruct (stable_onData w now id src raw st) as (-> & _).
  - destruct (status_tick now st) as [H|H]; rewrite H; eauto.
  - exists Error. split; [|done]. unfold on_child_error, status_of.
    by rewrite getJob_pushLog, getJob_setJob_.
  - exists s. done.
  - destruct (status_close now later xc xs st) as [H|H]; rewrite H; eauto.
  - assert (Hj : is_Some (JOBS st !! id)).
    { unfold status_of, getJob in Hs. destruct (JOBS st !! id); [eauto | discriminate]. }
    destruct Hj as [job Hj].
    destruct (status_stop now st job Hj) as [H|H]; rewrite H; eauto.
  - exists s. split; [|done]. unfold status_of.
    by destruct (stable_ensure w now id cname attempt st) as (-> & _).
Qed.
End StatusLemmas.

(** C1, as amended: submission stores the job as [pending] and the spawn
    makes it [running]; for a job that is [running] or [stopping] every event
    leaves the status as it is or moves it along a transition of the
    machine of 4.5, or from [stopping] to [timeout] when the guard fires.
    Each handler writes its status without reading the current one. *)
Theorem status_follows_machine w cfg id :
  (forall now child req dir st,
      status_of id (create_pending now id req dir st) = Some Pending
      /\ status_of id (spawn_running now id child (create_pending now id req dir st))
         = Some Running)
  /\ (forall st ev s,
        status_of id st = Some s -> s = Running \/ s = Stopping ->
        exists s',
          status_of id (handle w cfg id st ev) = Some s'
          /\ writes (snd ev) s s'
          /\ (s' = s \/ sm_step s s' \/ (s = Stopping /\ s' = Timeout))).
Proof.
  split.
  - intros now child req dir st. unfold status_of, spawn_running, create_pending.
    split; [by rewrite getJob_setJob_|].
    change (getJob id (set_CLOSURES ?m ?s)) with (getJob id s).
    rewrite getJob_setJob_. done.
  - intros st ev s Hs Hrun.
    destruct (status_handle w cfg id st ev s Hs) as (s' & Hs' & Hw).
    exists s'. split; [done|]. split; [done|].
    destruct ev as [now op]. cbn [snd] in Hw.
    destruct op; cbn [writes] in Hw; destruct Hrun as [-> | ->];
      repeat match goal with
             | H : _ \/ _ |- _ => destruct H
             end; subst; auto using sm_step.
Qed.

Lemma status_follows_machine_witness :
  let st := Sample.st_identified in
  (exists s', status_of "j" (handle Sample.base_up Sample.cfg_base "j" st (3000, OpStop))
              = Some s'
              /\ writes OpStop Running s'
              /\ (s' = Running \/ sm_step Running s' \/ (Running = Stopping /\ s' = Timeout)))
  /\ status_of "j" (handle Sample.base_up Sample.cfg_base "j" st (3000, OpStop))
     = Some Stopping.
Proof.
  cbv zeta. split; [|vm_compute; reflexivity].
  destruct (status_follows_machine Sample.base_up Sample.cfg_base "j") as (_ & H).
  apply (H Sample.st_identified (3000, OpStop) Running);
    [vm_compute; reflexivity | by left].
Defined.

(** C1, the claim as stated fails: a stop request that reaches the
    configured base moves a [done] job to [stopping], the "close" event of a
    child killed by the guard moves the job from [timeout] to [error], and
    the guard moves a [stopping] job to [timeout]; none of these is a
    transition of the machine. *)
Lemma status_leaves_machine :
  let stopped := handle Sample.base_up Sample.cfg_base "j" Finished.st_done (6000, OpStop) in
  let stopping_st := handle Sample.base_up Sample.cfg_base "j" Sample.st_running (3000, OpStop) in
  (status_of "j" Finished.st_done = Some Done
   /\ status_of "j" stopped = Some Stopping /\ ~ sm_step Done Stopping)
  /\ (status_of "j" Finished.st_timed_out = Some Timeout
      /\ status_of "j" Finished.st_reaped = Some Error /\ ~ sm_step Timeout Error)
  /\ (status_of "j" stopping_st = Some Stopping
      /\ status_of "j" (handle Sample.base_up Sample.cfg_base "j" stopping_st (1100000, OpTick))
         = Some Timeout
      /\ ~ sm_step Stopping Timeout).
Proof.
  cbv zeta. repeat split; try (vm_compute; reflexivity); intros H; inversion H.
Qed.

(** * Further properties *)

(** ** What the handlers do to the registry *)

(** ** The shape of extracted identifiers *)

Lemma rep_greedy_split {R} p min max inp (k : chars -> option R) x :
  rep_greedy p min max inp k = Some x ->
  exists pre r,
    inp = pre ++ r /\ Forall (fun c => p c = true) pre
    /\ (min <= length pre)%nat /\ (forall m, max = Some m -> (length pre <= m)%nat)
    /\ k r = Some x.
Proof.
  revert min max. induction inp as [|c tl IH]; intros min max; simpl.
  - destruct min; [|discriminate]. intros H. exists [], []. repeat split; auto.
    intros; simpl; lia.
  - assert (Hstop : match min with O => k (c :: tl) | S _ => None end = Some x ->
              exists pre r,
                c :: tl = pre ++ r /\ Forall (fun c => p c = true) pre
                /\ (min <= length pre)%nat
                /\ (forall m, max = Some m -> (length pre <= m)%nat) /\ k r = Some x).
    { destruct min; [|discriminate]. intros H. exists [], (c :: tl).
      repeat split; auto. intros; simpl; lia. }
    destruct (p c) eqn:Hp; [|exact Hstop]. simpl.
    destruct (bool_decide (max = Some O)) eqn:Hmax; [exact Hstop|]. simpl.
    destruct (rep_greedy p (Nat.pred min) (Nat.pred <$> max) tl k) eqn:E; [|exact Hstop].
    intros [= ->]. destruct (IH _ _ E) as (pre & r & -> & Hall & Hmin & Hmx & Hk).
    exists (c :: pre), r. repeat split; auto.
    + simpl. lia.
    + intros m ->. apply bool_decide_eq_false in Hmax.
      destruct m as [|m]; [done|]. specialize (Hmx m eq_refl). simpl. lia.
Qed.

Lemma rep_greedy_exact {R} p n cs (k : chars -> option R) :
  Forall (fun c => p c = true) cs -> length cs = n ->
  rep_greedy p n (Some n) cs k = k [].
Proof.
  intros Hall. revert n. induction Hall as [|c cs Hc _ IH]; intros n Hn; simpl in *.
  - by subst n.
  - subst n. rewrite Hc. simpl. rewrite (IH (length cs) eq_refl).
    by destruct (k []).
Qed.

Lemma run_sets_shaped {R} r : forall inp cap (k : chars -> option chars -> option R) x,
  only_uuid_groups r ->
  Regex.run true r inp cap k = Some x ->
  exists rest cap',
    k rest cap' = Some x
    /\ (cap' = cap \/ exists cs, cap' = Some cs /\ shaped cs)
    /\ (sets_group r = true -> exists cs, cap' = Some cs /\ shaped cs).
Proof.
  induction r as [s|c min max|r1 IH1|r1 IH1 r2 IH2|r1 IH1 r2 IH2];
    intros inp cap k x Hg; cbn [Regex.run only_uuid_groups sets_group] in *.
  - destruct (strip_prefix true _ inp) as [rest|]; [|discriminate]. intros H.
    exists rest, cap. repeat split; auto. discriminate.
  - intros H. apply rep_greedy_suffix in H as (rest & _ & H).
    exists rest, cap. repeat split; auto. discriminate.
  - subst r1. cbn [Regex.run]. intros H.
    apply rep_greedy_split in H as (pre & rest & -> & Hall & Hmin & Hmax & H).
    specialize (Hmax _ eq_refl).
    rewrite length_app, Nat.add_sub, take_app_length in H.
    assert (Hs : shaped pre) by (split; [lia | done]).
    exists rest, (Some pre). repeat split; eauto.
  - destruct Hg as [Hg1 Hg2]. intros H.
    apply (IH1 _ _ _ _ Hg1) in H as (rest1 & cap1 & H & Hc1 & Hs1).
    apply (IH2 _ _ _ _ Hg2) in H as (rest2 & cap2 & H & Hc2 & Hs2).
    exists rest2, cap2. split; [done|]. split.
    + destruct Hc2 as [->|?]; auto.
    + intros [H1|H2]%orb_true_iff; [|auto].
      destruct Hc2 as [->|?]; auto.
  - destruct Hg as [Hg1 Hg2]. intros H.
    destruct (Regex.run true r1 inp cap k) eqn:E1.
    + simplify_eq. apply (IH1 _ _ _ _ Hg1) in E1 as (rest & cap' & H & Hc & Hs).
      exists rest, cap'. repeat split; auto. intros [? ?]%andb_true_iff. auto.
    + apply (IH2 _ _ _ _ Hg2) in H as (rest & cap' & H & Hc & Hs).
      exists rest, cap'. repeat split; auto. intros [? ?]%andb_true_iff. auto.
Qed.

Lemma search_shaped r inp x :
  only_uuid_groups r -> sets_group r = true ->
  search true r inp = Some x -> exists cs, group1 x = Some cs /\ shaped cs.
Proof.
  intros Hg Hs. induction inp as [|c tl IH]; simpl;
    destruct (exec_at true r _) as [y|] eqn:E; try discriminate; try (intros [= ->]);
    try exact IH;
    unfold exec_at in E; apply run_sets_shaped in E as (rest & cap' & [= <-] & _ & H);
    auto.
Qed.

Lemma first_match_shaped rs s u :
  Forall (fun r => only_uuid_groups r /\ sets_group r = true) rs ->
  first_match rs s = Some u ->
  exists cs, u = string_of_list_ascii cs /\ shaped cs.
Proof.
  induction 1 as [|r rs [Hg Hs] _ IH]; simpl; [discriminate|].
  unfold match_group1.
  destruct (search true r (list_ascii_of_string s)) as [x|] eqn:E; [|exact IH].
  intros [= <-]. destruct (search_shaped _ _ _ Hg Hs E) as (cs & -> & Hcs). eauto.
Qed.

Lemma string_length_of_list cs : String.length (string_of_list_ascii cs) = length cs.
Proof. induction cs as [|c cs IH]; simpl; [done | by rewrite IH]. Qed.

Lemma shaped_passes cs : shaped cs -> isUuidDirName (string_of_list_ascii cs) = true.
Proof.
  intros [Hlen Hall]. unfold isUuidDirName, test_whole.
  rewrite list_ascii_of_string_of_list_ascii. cbn [Regex.run].
  by rewrite (rep_greedy_exact _ 36 cs).
Qed.

Lemma patterns_capture_uuid :
  Forall (fun r => only_uuid_groups r /\ sets_group r = true) UUID_PATTERNS.
Proof. unfold UUID_PATTERNS, uuid36. repeat constructor. Qed.

Lemma extractUuidFrom_shape line u :
  extractUuidFrom line = Some u -> isUuidDirName u = true.
Proof.
  unfold extractUuidFrom. intros H.
  apply (first_match_shaped _ _ _ patterns_capture_uuid) in H as (cs & -> & Hcs).
  by apply shaped_passes.
Qed.

Lemma findLatest_shape w dir since u :
  findLatestUuidFromRecordingsSince w dir since = Some u -> isUuidDirName u = true.
Proof.
  unfold findLatestUuidFromRecordingsSince.
  destruct (readdirSync w dir) as [entries|]; [|discriminate].
  destruct (stat_all w dir (List.filter isUuidDirName entries)) as [its|] eqn:Hits;
    [|discriminate].
  destruct (head _) as [[n t]|] eqn:Hh; [|discriminate]. simpl. intros [= ->].
  apply (sort_by_head_max snd) in Hh as [Hin _].
  apply filter_In in Hin as [Hin _].
  apply (stat_all_In _ _ _ _ Hits) in Hin as [Hin _].
  by apply filter_In in Hin as [_ Hshape].
Qed.

(** X12: whatever the line, an identifier that [extractUuidFrom] returns
    has the identifier shape: 36 characters of [[A-F0-9-]] in either case.
    So it is never empty, it passes [validateUuid], and a recordings
    directory named after it is one the fallback scan would recognise. *)
Theorem extracted_uuid_is_shaped line u :
  extractUuidFrom line = Some u ->
  isUuidDirName u = true /\ String.length u = 36%nat
  /\ nonempty u = true /\ validateUuid (Some u) = true.
Proof.
  unfold extractUuidFrom. intros H.
  apply (first_match_shaped _ _ _ patterns_capture_uuid) in H as (cs & -> & Hcs).
  pose proof (shaped_passes cs Hcs) as Hp.
  assert (Hn : nonempty (string_of_list_ascii cs) = true)
    by by apply isUuidDirName_nonempty.
  repeat split; try done.
  - rewrite string_length_of_list. apply Hcs.
  - unfold validateUuid, truthy_str, nonempty in *. cbn [default id].
    by rewrite Hn, Hp.
Qed.

Lemma extracted_uuid_is_shaped_witness :
  isUuidDirName Sample.U1 = true /\ String.length Sample.U1 = 36%nat
  /\ nonempty Sample.U1 = true /\ validateUuid (Some Sample.U1) = true.
Proof.
  apply (extracted_uuid_is_shaped Nested.coloured Sample.U1). vm_compute. reflexivity.
Defined.


Lemma evolves_trans P j1 j2 j3 : evolves P j1 j2 -> evolves P j2 j3 -> evolves P j1 j3.
Proof. intros H12 H23. induction H23; eauto using evolves. Qed.

Section JobSteps.
Variables (w : World) (cfg : Config) (id : string) (st0 : State).

Lemma job_step_refl : job_step id st0 st0.
Proof. split; [apply ev_refl | done]. Qed.

Lemma job_step_frame s s' :
  JOBS s' = JOBS s -> job_step id st0 s -> job_step id st0 s'.
Proof. intros HJ [He Ho]. unfold job_step, getJob in *. rewrite HJ. done. Qed.

Lemma job_step_setJob now patch s :
  handler_patch (getJob id s) patch ->
  job_step id st0 s -> job_step id st0 (setJob_ now id patch s).
Proof.
  intros HP [He Ho]. split.
  - rewrite getJob_setJob_. by eapply ev_patch.
  - intros id' Hne. unfold setJob_, setJob. simpl. rewrite lookup_insert_ne by done. auto.
Qed.

Lemma job_step_pushLog now line s :
  job_step id st0 s -> job_step id st0 (pushLog now id line s).
Proof.
  intros [He Ho]. split.
  - rewrite getJob_pushLog. by apply ev_log.
  - intros id' Hne. unfold pushLog, setJob. cbv zeta.
    match goal with |- context [foldl ?f ?s0 ?l] =>
      destruct (write_all_frame (sse_frame line) l s0) as (HJ & _) end.
    cbv zeta in HJ. rewrite HJ. simpl. rewrite !lookup_insert_ne by done. auto.
Qed.

Lemma job_step_ensure now cname n s :
  job_step id st0 s -> job_step id st0 (ensureHostPort8080 w now id cname n s).
Proof.
  intros Hs. unfold ensureHostPort8080. destruct (nonempty cname); [|done].
  destruct (dockerGetHostPort8080 w cname).
  - apply job_step_pushLog, job_step_setJob; [patch_ok|].
    by apply (job_step_frame s).
  - destruct (n <? 3)%nat; by apply (job_step_frame s).
Qed.

Lemma job_step_scan_line now line s :
  job_step id st0 s -> job_step id st0 (scan_line w now id s line).
Proof.
  intros Hs. unfold scan_line, scan_container.
  assert (H1 : job_step id st0 (scan_uuid now id (getJob id s) line s)).
  { unfold scan_uuid. destruct (negb _); [|done].
    destruct (extractUuidFrom line) as [u|] eqn:He; [|done].
    apply extractUuidFrom_shape in He.
    destruct (nonempty u) eqn:Hu; [|done]. apply job_step_setJob; [patch_ok|done]. }
  destruct (match_group1 _ _ _) as [cname|]; [|done].
  destruct (negb (truthy_str (Job.containerName (getJob id s)))); [|done].
  apply job_step_ensure.
  destruct (negb _ && isUuidDirName (drop_meetbot cname)) eqn:Hm.
  - apply andb_true_iff in Hm as [_ Hm]. pose proof (isUuidDirName_nonempty _ Hm).
    repeat (apply job_step_setJob; [patch_ok|]). done.
  - repeat (apply job_step_setJob; [patch_ok|]). done.
Qed.

Lemma job_step_onData now src raw s :
  job_step id st0 s -> job_step id st0 (onData w now id src raw s).
Proof.
  intros Hs. unfold onData.
  apply (foldl_inv _ (job_step id st0)).
  - apply (foldl_inv _ (job_step id st0)).
    + by apply (job_step_frame s).
    + intros. by apply job_step_pushLog.
  - intros. by apply job_step_scan_line.
Qed.

Lemma job_step_tick now s :
  job_step id st0 s -> job_step id st0 (guard_tick cfg now id s).
Proof.
  intros Hs. unfold guard_tick. destruct (CLOSURES s !! id) as [c|]; [|done].
  destruct (armed c); [|done]. cbv zeta.
  destruct (_ <? _); [|destruct (_ <? _); [|done]];
    (eapply job_step_frame; [reflexivity|]);
    apply job_step_pushLog, job_step_setJob; try patch_ok;
    by apply (job_step_frame s).
Qed.

Lemma job_step_close now later xc xs s :
  job_step id st0 s -> job_step id st0 (on_close w cfg now later id xc xs s).
Proof.
  intros Hs. unfold on_close.
  set (ce := codeEff s id xc). set (se := sigEff s id xs).
  set (t := if needs_scan _ ce se then later else now).
  assert (H2 : job_step id st0
                 (if needs_scan (getJob id (close_begin id s)) ce se
                  then close_scan w cfg later id (getJob id (close_begin id s))
                                  (emit (FxSleep 500) (close_begin id s))
                  else close_begin id s)).
  { destruct (needs_scan _ _ _); [|by apply (job_step_frame s)].
    unfold close_scan. destruct (findLatestUuidFromRecordingsSince _ _ _) as [u|] eqn:Hf.
    - apply findLatest_shape in Hf.
      destruct (nonempty u) eqn:Hu; [|by apply (job_step_frame s)].
      apply job_step_setJob; [patch_ok|]. by apply (job_step_frame s).
    - by apply (job_step_frame s). }
  revert H2. generalize (if needs_scan (getJob id (close_begin id s)) ce se
                  then close_scan w cfg later id (getJob id (close_begin id s))
                                  (emit (FxSleep 500) (close_begin id s))
                  else close_begin id s).
  intros s2 H2. unfold close_finish.
  destruct (is_zero ce && negb (truthy_str se) && truthy_str (Job.uuid (getJob id s2))) eqn:Hc.
  - apply andb_true_iff in Hc as [_ Hu].
    apply job_step_pushLog, job_step_setJob; [|done]. patch_ok.
  - apply job_step_pushLog, job_step_setJob; [|done]. patch_ok.
Qed.

Lemma attempted_no_kill tbl :
  Forall tagged tbl ->
  Forall (fun e => is_kill e = false) (flat_map o_fx (attempted tbl)).
Proof.
  induction 1 as [|o tbl Ho _ IH]; simpl; [done|].
  assert (Hfx : Forall (fun e => is_kill e = false) (o_fx o)).
  { eapply Forall_impl; [exact Ho|]. intros e He. by destruct e. }
  destruct (o_applies o); [|done]. simpl. apply Forall_app. split; [done|].
  by destruct (o_succeeds o).
Qed.

Lemma stop_handler_shape now s :
  exists fx, Forall (fun e => is_kill e = false) fx
             /\ (fst (stop_handler w cfg now id s) = add_fx fx s
                 \/ fst (stop_handler w cfg now id s) = stopping now id (add_fx fx s)).
Proof.
  destruct (JOBS s !! id) as [job|] eqn:Hj.
  - rewrite (stop_handler_cascade w cfg now id s job Hj).
    match goal with |- context [foldr orElse ?z ?ss s] =>
      assert (HF : Forall2 (fun o S => behaves now id o S s)
                     (strategy_table w cfg false job (CHILDREN s !! id)) ss);
      [|pose proof (cascade_runs now id s _ ss HF []) as E] end.
    { unfold strategy_table. repeat apply Forall2_cons_2; try apply Forall2_nil_2.
      - apply behaves_base. - apply behaves_exec. - apply behaves_container_http.
      - apply behaves_docker_stop. - apply behaves_local_kill. }
    rewrite add_fx_nil in E. rewrite E. cbv zeta. rewrite app_nil_l.
    eexists. split; [apply attempted_no_kill, table_tagged|].
    destruct (List.find wins _); simpl; eauto.
  - exists []. split; [done|]. left. unfold stop_handler. rewrite Hj. simpl.
    by rewrite add_fx_nil.
Qed.

Lemma job_step_stop now s :
  job_step id st0 s -> job_step id st0 (fst (stop_handler w cfg now id s)).
Proof.
  intros Hs. destruct (stop_handler_shape now s) as (fx & _ & [-> | ->]).
  - by apply (job_step_frame s).
  - unfold stopping. apply job_step_setJob; [patch_ok|]. by apply (job_step_frame s).
Qed.

Lemma job_step_handle ev s :
  job_step id st0 s -> job_step id st0 (handle w cfg id s ev).
Proof.
  intros Hs. destruct ev as [now op]. unfold handle. cbn [fst snd].
  destruct op as [|src raw| |err|xc xs|later xc xs| |cname attempt].
  - by apply job_step_pushLog.
  - by apply job_step_onData.
  - by apply job_step_tick.
  - unfold on_child_error. apply job_step_pushLog, job_step_setJob; [patch_ok|done].
  - by apply (job_step_frame s).
  - by apply job_step_close.
  - by apply job_step_stop.
  - by apply job_step_ensure.
Qed.

Lemma job_step_replay evs s :
  job_step id st0 s -> job_step id st0 (replay w cfg id evs s).
Proof.
  intros Hs. unfold replay. apply (foldl_inv _ (job_step id st0)); [done|].
  intros. by apply job_step_handle.
Qed.
End JobSteps.

Lemma evolves_fixed j j' :
  evolves handler_patch j j' ->
  Job.id j' = Job.id j /\ Job.meeting_url j' = Job.meeting_url j
  /\ Job.bot_name j' = Job.bot_name j /\ Job.extra j' = Job.extra j
  /\ Job.createdAt j' = Job.createdAt j /\ Job.startedAt j' = Job.startedAt j
  /\ Job.recordingsDir j' = Job.recordingsDir j /\ Job.clients j' = Job.clients j.
Proof.
  induction 1 as [j|j j' now patch _ IH HP|j j' now line _ IH]; [done| |exact IH].
  destruct HP as (H1 & H2 & H3 & H4 & H5 & H6 & H7 & _ & H9 & _).
  simpl. rewrite H1, H2, H3, H4, H5, H6, H7, H9. exact IH.
Qed.

(** X1: whatever events a job goes through (output, guard firings, child
    error, exit, close, stop requests, port retries), what was submitted
    stays as it was: id, meeting url, bot name, extras, creation and start
    time, recordings directory, and the set of subscribers. *)
Theorem submission_is_immutable w cfg id evs st :
  let j := getJob id st in
  let j' := getJob id (replay w cfg id evs st) in
  Job.id j' = Job.id j /\ Job.meeting_url j' = Job.meeting_url j
  /\ Job.bot_name j' = Job.bot_name j /\ Job.extra j' = Job.extra j
  /\ Job.createdAt j' = Job.createdAt j /\ Job.startedAt j' = Job.startedAt j
  /\ Job.recordingsDir j' = Job.recordingsDir j /\ Job.clients j' = Job.clients j.
Proof.
  cbv zeta. apply evolves_fixed.
  apply (job_step_replay w cfg id st evs st), job_step_refl.
Qed.

(** X2: the events of one job never change the record of another job. *)
Theorem other_jobs_untouched w cfg id evs st id' :
  id' <> id -> JOBS (replay w cfg id evs st) !! id' = JOBS st !! id'.
Proof.
  intros Hne.
  destruct (job_step_replay w cfg id st evs st (job_step_refl id st)) as [_ H].
  by apply H.
Qed.

Lemma other_jobs_untouched_witness :
  let st := fst (post_jobs 1500 true "k" "/recordings" (mkChild (Some 77))
                           Sample.request Sample.st_running) in
  JOBS (replay Sample.silent Sample.cfg "j"
               [(2000, OpData "[bot:stdout]" ("session ID: " +:+ Sample.U1));
                (3000, OpClose 3500 (Some 0) None)] st) !! "k"
  = JOBS st !! "k".
Proof. cbv zeta. apply other_jobs_untouched. discriminate. Defined.




Lemma evolves_done j j' :
  evolves handler_patch j j' ->
  (Job.status j = Some Done -> truthy_str (Job.uuid j) = true) ->
  Job.status j' = Some Done -> truthy_str (Job.uuid j') = true.
Proof.
  induction 1 as [j|j j' now patch _ IH HP|j j' now line _ IH]; intros Hj; [done| |auto].
  destruct HP as (_ & _ & _ & _ & _ & _ & _ & _ & _ & Hu & Hd & _).
  simpl. destruct (Job.status patch) as [s|] eqn:Hs; simpl.
  - intros [= ->]. destruct (Hd eq_refl) as [Hc ->]. done.
  - intros Hdone. specialize (IH Hj Hdone).
    destruct Hu as [-> | Hu]; [done|].
    destruct (Job.uuid patch); [done | discriminate].
Qed.

(** X4: a job is never [done] without an identifier: if that holds of a
    job (as it does of every job that is not done), it holds after any
    events. *)
Theorem done_has_identifier w cfg id evs st :
  (Job.status (getJob id st) = Some Done -> truthy_str (Job.uuid (getJob id st)) = true) ->
  Job.status (getJob id (replay w cfg id evs st)) = Some Done ->
  truthy_str (Job.uuid (getJob id (replay w cfg id evs st))) = true.
Proof.
  apply evolves_done.
  apply (job_step_replay w cfg id st evs st), job_step_refl.
Qed.

Lemma done_has_identifier_witness :
  let evs := [(2000, OpData "[bot:stdout]" ("session ID: " +:+ Sample.U1));
              (2500, OpExit (Some 0) None); (3000, OpClose 3500 (Some 0) None)] in
  truthy_str (Job.uuid (getJob "j" (replay Sample.silent Sample.cfg "j" evs
                                           Sample.st_running))) = true.
Proof.
  cbv zeta. apply done_has_identifier; [discriminate | vm_compute; reflexivity].
Defined.

(** ** Identifiers stay *)

Section Locks.
Variables (w : World) (cfg : Config) (id : string).

Lemma close_keeps_cname now later xc xs st :
  Job.containerName (getJob id (on_close w cfg now later id xc xs st))
  = Job.containerName (getJob id st).
Proof.
  unfold on_close.
  set (ce := codeEff st id xc). set (se := sigEff st id xs).
  set (t := if needs_scan _ ce se then later else now).
  assert (H2 : Job.containerName
                 (getJob id (if needs_scan (getJob id (close_begin id st)) ce se
                             then close_scan w cfg later id (getJob id (close_begin id st))
                                             (emit (FxSleep 500) (close_begin id st))
                             else close_begin id st))
               = Job.containerName (getJob id st)).
  { destruct (needs_scan _ _ _); [|done]. unfold close_scan.
    destruct (findLatestUuidFromRecordingsSince _ _ _) as [u|]; [|done].
    destruct (nonempty u); [|done]. by rewrite getJob_setJob_. }
  revert H2. generalize (if needs_scan (getJob id (close_begin id st)) ce se
                             then close_scan w cfg later id (getJob id (close_begin id st))
                                             (emit (FxSleep 500) (close_begin id st))
                             else close_begin id st).
  intros s2 <-. unfold close_finish.
  destruct (_ && _ && _); by rewrite getJob_pushLog, getJob_setJob_.
Qed.

Lemma close_keeps_uuid now later xc xs st :
  truthy_str (Job.uuid (getJob id st)) = true ->
  Job.uuid (getJob id (on_close w cfg now later id xc xs st)) = Job.uuid (getJob id st).
Proof.
  intros Hu. unfold on_close. rewrite !getJob_close_begin.
  unfold needs_scan at 1 2. rewrite Hu. simpl.
  by destruct (close_finish_spec cfg now id (codeEff st id xc) (sigEff st id xs)
                 (close_begin id st)) as (-> & _).
Qed.

Lemma tick_keeps_discovery now st :
  Job.uuid (getJob id (guard_tick cfg now id st)) = Job.uuid (getJob id st)
  /\ Job.containerName (getJob id (guard_tick cfg now id st))
     = Job.containerName (getJob id st).
Proof.
  unfold guard_tick. destruct (CLOSURES st !! id) as [c|]; [|done].
  destruct (armed c); [|done]. cbv zeta.
  destruct (_ <? _); [|destruct (_ <? _); [|done]];
    change (getJob id (clearGuard id ?s)) with (getJob id s);
    by rewrite getJob_pushLog, getJob_setJob_.
Qed.

Lemma stop_keeps_discovery now st :
  Job.uuid (getJob id (fst (stop_handler w cfg now id st))) = Job.uuid (getJob id st)
  /\ Job.containerName (getJob id (fst (stop_handler w cfg now id st)))
     = Job.containerName (getJob id st).
Proof.
  destruct (stop_handler_shape w cfg id now st) as (fx & _ & [-> | ->]); [done|].
  unfold stopping. by rewrite getJob_setJob_.
Qed.

Lemma handle_keeps_identifiers ev st :
  (truthy_str (Job.uuid (getJob id st)) = true ->
   Job.uuid (getJob id (handle w cfg id st ev)) = Job.uuid (getJob id st))
  /\ (truthy_str (Job.containerName (getJob id st)) = true ->
      Job.containerName (getJob id (handle w cfg id st ev))
      = Job.containerName (getJob id st)).
Proof.
  destruct ev as [now op]. unfold handle. cbn [fst snd].
  destruct op as [|src raw| |err|xc xs|later xc xs| |cname attempt].
  - unfold on_spawn. by rewrite getJob_pushLog.
  - split; [apply uuid_locked_onData | apply cname_locked_onData].
  - destruct (tick_keeps_discovery now st) as [-> ->]. done.
  - unfold on_child_error. by rewrite getJob_pushLog, getJob_setJob_.
  - done.
  - split; [apply close_keeps_uuid | intros _; apply close_keeps_cname].
  - destruct (stop_keeps_discovery now st) as [-> ->]. done.
  - split; intros _; [apply uuid_kept_ensure|].
    unfold ensureHostPort8080. destruct (nonempty cname); [|done].
    destruct (dockerGetHostPort8080 w cname); [|by destruct (attempt <? 3)%nat].
    by rewrite getJob_pushLog, getJob_setJob_.
Qed.
End Locks.

(** X5: across events the discovered identifiers are locked: once a job
    has a uuid, no later output chunk, guard firing, exit, close (with its
    fallback scan), stop request or retry changes it, and the same holds of
    the container name. *)
Theorem identifiers_locked w cfg id evs : forall st,
  (truthy_str (Job.uuid (getJob id st)) = true ->
   Job.uuid (getJob id (replay w cfg id evs st)) = Job.uuid (getJob id st))
  /\ (truthy_str (Job.containerName (getJob id st)) = true ->
      Job.containerName (getJob id (replay w cfg id evs st))
      = Job.containerName (getJob id st)).
Proof.
  induction evs as [|ev evs IH]; intros st; [done|].
  unfold replay in *. simpl.
  destruct (handle_keeps_identifiers w cfg id ev st) as [Hu Hc].
  destruct (IH (handle w cfg id st ev)) as [IHu IHc].
  split; intros H.
  - rewrite <- (Hu H). apply IHu. by rewrite (Hu H).
  - rewrite <- (Hc H). apply IHc. by rewrite (Hc H).
Qed.

Lemma identifiers_locked_witness :
  let evs := [(3000, OpData "[bot:stderr]" ("bot UUID: " +:+ Sample.U2));
              (3500, OpData "[bot:stdout]"
                            ("CONTAINER_NAME: meetbot-" +:+ Sample.U3));
              (4000, OpClose 4500 (Some 0) None)] in
  Job.uuid (getJob "j" (replay Sample.with_recordings Sample.cfg "j" evs
                               Sample.st_identified))
  = Some Sample.U1.
Proof.
  cbv zeta.
  destruct (identifiers_locked Sample.with_recordings Sample.cfg "j"
              [(3000, OpData "[bot:stderr]" ("bot UUID: " +:+ Sample.U2));
               (3500, OpData "[bot:stdout]"
                             ("CONTAINER_NAME: meetbot-" +:+ Sample.U3));
               (4000, OpClose 4500 (Some 0) None)] Sample.st_identified) as [H _].
  rewrite H; vm_compute; reflexivity.
Defined.

(** ** The guard after the exit *)

Section Disarmed.
Variables (w : World) (cfg : Config) (id : string).

Lemma quiet_refl st : quiet id st st.
Proof. done. Qed.

Lemma quiet_trans s1 s2 s3 : quiet id s1 s2 -> quiet id s2 s3 -> quiet id s1 s3.
Proof. intros [? ?] [? ?]. split; congruence. Qed.

Lemma quiet_frame st st' :
  CLOSURES st' = CLOSURES st -> FX st' = FX st -> quiet id st st'.
Proof. intros HC HF. unfold quiet, kills. by rewrite HC, HF. Qed.

Lemma quiet_emit e st : is_kill e = false -> quiet id st (emit e st).
Proof.
  intros He. split; [done|]. unfold kills, emit. simpl.
  rewrite List.filter_app. simpl. rewrite He. by rewrite app_nil_r.
Qed.

Lemma quiet_add_fx fx st :
  Forall (fun e => is_kill e = false) fx -> quiet id st (add_fx fx st).
Proof.
  intros Hfx. split; [done|]. unfold kills, add_fx. simpl.
  rewrite List.filter_app.
  replace (List.filter is_kill fx) with (@nil Effect); [by rewrite app_nil_r|].
  induction Hfx as [|e fx He _ IH]; simpl; [done|]. by rewrite He.
Qed.

Lemma quiet_setJob now patch st : quiet id st (setJob_ now id patch st).
Proof. by apply quiet_frame. Qed.

Lemma quiet_pushLog now line st : quiet id st (pushLog now id line st).
Proof.
  destruct (pushLog_frame now id line st) as (_ & HC & HF). by apply quiet_frame.
Qed.

Lemma quiet_ensure now cname n st : quiet id st (ensureHostPort8080 w now id cname n st).
Proof.
  unfold ensureHostPort8080. destruct (nonempty cname); [|apply quiet_refl].
  eapply quiet_trans; [by apply (quiet_emit (FxDockerPort cname))|].
  destruct (dockerGetHostPort8080 w cname).
  - eapply quiet_trans; [apply quiet_setJob | apply quiet_pushLog].
  - destruct (n <? 3)%nat; [by apply quiet_emit | apply quiet_refl].
Qed.

Lemma quiet_scan_line now line st : quiet id st (scan_line w now id st line).
Proof.
  unfold scan_line, scan_container.
  assert (H1 : quiet id st (scan_uuid now id (getJob id st) line st)).
  { unfold scan_uuid. destruct (negb _); [|apply quiet_refl].
    destruct (extractUuidFrom line) as [u|]; [|apply quiet_refl].
    destruct (nonempty u); [apply quiet_setJob | apply quiet_refl]. }
  destruct (match_group1 _ _ _) as [cname|]; [|done].
  destruct (negb (truthy_str (Job.containerName (getJob id st)))); [|done].
  eapply quiet_trans; [|apply quiet_ensure].
  destruct (_ && _); repeat (eapply quiet_trans; [|apply quiet_setJob]); done.
Qed.

Lemma quiet_onData now src raw st : quiet id st (onData w now id src raw st).
Proof.
  unfold onData. apply (foldl_inv _ (quiet id st)).
  - apply (foldl_inv _ (quiet id st)).
    + split; [|done]. unfold touch. simpl. rewrite lookup_alter_eq.
      by destruct (CLOSURES st !! id).
    + intros s l Hs. eapply quiet_trans; [exact Hs | apply quiet_pushLog].
  - intros s l Hs. eapply quiet_trans; [exact Hs | apply quiet_scan_line].
Qed.

Lemma tick_disarmed now st : disarmed id st -> guard_tick cfg now id st = st.
Proof.
  unfold disarmed, guard_tick. destruct (CLOSURES st !! id) as [c|]; [|done].
  simpl. destruct (armed c); [intros H; by destruct H | done].
Qed.

Lemma quiet_close_scan later j0 st : quiet id st (close_scan w cfg later id j0 st).
Proof.
  unfold close_scan.
  set (dir := or_str (Job.recordingsDir j0) (DEFAULT_RECORDINGS_DIR cfg)).
  pose proof (quiet_emit (FxScan dir) st eq_refl) as He.
  destruct (findLatestUuidFromRecordingsSince _ _ _) as [u|]; [|exact He].
  destruct (nonempty u); [|exact He].
  eapply quiet_trans; [exact He | apply quiet_setJob].
Qed.

Lemma close_disarms now later xc xs st :
  disarmed id (on_close w cfg now later id xc xs st)
  /\ kills (on_close w cfg now later id xc xs st) = kills st.
Proof.
  unfold on_close.
  set (ce := codeEff st id xc). set (se := sigEff st id xs).
  set (t := if needs_scan _ ce se then later else now).
  assert (H2 : quiet id (close_begin id st)
                 (if needs_scan (getJob id (close_begin id st)) ce se
                  then close_scan w cfg later id (getJob id (close_begin id st))
                                  (emit (FxSleep 500) (close_begin id st))
                  else close_begin id st)).
  { destruct (needs_scan _ _ _); [|apply quiet_refl].
    eapply quiet_trans; [by apply (quiet_emit (FxSleep 500))|].
    apply quiet_close_scan. }
  revert H2. generalize (if needs_scan (getJob id (close_begin id st)) ce se
                  then close_scan w cfg later id (getJob id (close_begin id st))
                                  (emit (FxSleep 500) (close_begin id st))
                  else close_begin id st).
  intros s2 H2.
  assert (H3 : quiet id (close_begin id st) (close_finish cfg t id ce se s2)).
  { eapply quiet_trans; [exact H2|]. unfold close_finish.
    destruct (_ && _ && _);
      (eapply quiet_trans; [apply quiet_setJob | apply quiet_pushLog]). }
  destruct H3 as [HA HK]. split.
  - unfold disarmed. rewrite HA. unfold close_begin, clearGuard. simpl.
    rewrite lookup_alter_eq. by destruct (CLOSURES st !! id).
  - by rewrite HK.
Qed.

Lemma handle_disarmed ev st :
  disarmed id st ->
  disarmed id (handle w cfg id st ev) /\ kills (handle w cfg id st ev) = kills st.
Proof.
  intros Hd. destruct ev as [now op]. unfold handle. cbn [fst snd].
  assert (Hq : forall st', quiet id st st' -> disarmed id st' /\ kills st' = kills st).
  { intros st' [HA HK]. unfold disarmed in *. by rewrite HA. }
  destruct op as [|src raw| |err|xc xs|later xc xs| |cname attempt].
  - apply Hq, quiet_pushLog.
  - apply Hq, quiet_onData.
  - by rewrite tick_disarmed.
  - apply Hq. unfold on_child_error.
    eapply quiet_trans; [apply quiet_setJob | apply quiet_pushLog].
  - apply Hq. split; [|done]. unfold on_exit. simpl. rewrite lookup_alter_eq.
    by destruct (CLOSURES st !! id).
  - apply close_disarms.
  - apply Hq. destruct (stop_handler_shape w cfg id now st) as (fx & Hfx & [-> | ->]).
    + by apply quiet_add_fx.
    + eapply quiet_trans; [by apply quiet_add_fx | apply quiet_setJob].
  - apply Hq, quiet_ensure.
Qed.
End Disarmed.

(** X6: the guard never kills after the exit.  The "close" handler leaves
    the guard disarmed, and so does a firing that kills; from a state with
    the guard disarmed no sequence of events (further firings included)
    re-arms it or adds a kill. *)
Theorem guard_silent_after_exit w cfg id :
  (forall now later xc xs st, disarmed id (on_close w cfg now later id xc xs st))
  /\ (forall now st c,
        CLOSURES st !! id = Some c -> armed c = true ->
        BOT_MAX_TIMEOUT_MS cfg < now - guardStartedAt c
        \/ BOT_IDLE_TIMEOUT_MS cfg < now - lastActivity c ->
        disarmed id (guard_tick cfg now id st))
  /\ (forall evs st,
        disarmed id st ->
        disarmed id (replay w cfg id evs st)
        /\ kills (replay w cfg id evs st) = kills st).
Proof.
  split; [|split].
  - intros. apply close_disarms.
  - intros now st c Hc Ha Hover. unfold disarmed.
    destruct (BOT_MAX_TIMEOUT_MS cfg <? now - guardStartedAt c) eqn:Hm.
    + destruct (tick_fires cfg id now st c "max_time_exceeded" Hc Ha) as (_ & _ & _ & ->);
        [by rewrite Hm | done].
    + destruct (tick_fires cfg id now st c "idle_timeout" Hc Ha) as (_ & _ & _ & ->);
        [|done].
      rewrite Hm. split; [|done]. apply Z.ltb_lt. apply Z.ltb_ge in Hm. lia.
  - induction evs as [|ev evs IH]; intros st Hd; [done|].
    unfold replay in *. simpl.
    destruct (handle_disarmed w cfg id ev st Hd) as [Hd' Hk].
    destruct (IH _ Hd') as [? ?]. split; [done | congruence].
Qed.

Lemma guard_silent_after_exit_witness :
  let st := on_close Sample.silent Sample.cfg 5000 5500 "j" (Some 0) None
                     Sample.st_identified in
  let evs := [(90000000, OpTick); (90005000, OpTick); (90010000, OpStop)] in
  kills (replay Sample.silent Sample.cfg "j" evs st) = kills st.
Proof.
  cbv zeta.
  destruct (guard_silent_after_exit Sample.silent Sample.cfg "j") as (Hclose & _ & Hrun).
  apply Hrun, Hclose.
Defined.

(** ** Stopping without a channel *)

(** X7: with no base configured, a job without a container name whose
    child is no longer registered (as after its "close" event) cannot be
    stopped: the answer is [stop_unavailable] and nothing is called or
    changed, whatever the environment answers and whether or not docker stop
    is allowed. *)
Theorem stop_without_channel w cfg now id st job :
  JOBS st !! id = Some job ->
  MEET_BOT_BASE cfg = EmptyString ->
  truthy_str (Job.containerName job) = false ->
  CHILDREN st !! id = None ->
  stop_handler w cfg now id st = (st, Unavailable).
Proof.
  intros Hj Hb Hc Hch. unfold stop_handler. rewrite Hj. cbv zeta.
  unfold orElse, stop_via_base, stop_via_exec, stop_via_container_http,
    stop_via_docker_stop, stop_via_local_kill.
  rewrite Hb, Hc, andb_false_r.
  destruct (payload_of job); simpl; by rewrite Hch.
Qed.

Lemma stop_without_channel_witness :
  stop_handler Sample.base_up Sample.cfg 9000 "j" Finished.st_done
  = (Finished.st_done, Unavailable).
Proof.
  apply (stop_without_channel Sample.base_up Sample.cfg 9000 "j" Finished.st_done
           (getJob "j" Finished.st_done)); vm_compute; reflexivity.
Defined.

(** ** The close handler and the file system *)

(** X8: the "close" handler makes no call outside the process except on a
    clean exit of a job without identifier, where it sleeps 500 ms and reads
    the recordings directory once. *)
Theorem close_effects w cfg now later id xc xs st :
  let j0 := getJob id st in
  let dir := or_str (Job.recordingsDir j0) (DEFAULT_RECORDINGS_DIR cfg) in
  FX (on_close w cfg now later id xc xs st)
  = FX st ++ (if needs_scan j0 (codeEff st id xc) (sigEff st id xs)
              then [FxSleep 500; FxScan dir] else []).
Proof.
  cbv zeta. unfold on_close. rewrite close_finish_FX, !getJob_close_begin.
  destruct (needs_scan _ _ _).
  - unfold close_scan.
    destruct (findLatestUuidFromRecordingsSince _ _ _) as [u|];
      [destruct (nonempty u)|]; cbn [FX emit setJob_ setJob fst set_JOBS close_begin
                                      clearGuard set_CLOSURES set_CHILDREN];
      by rewrite <- app_assoc.
  - simpl. by rewrite app_nil_r.
Qed.

(** ** The fallback scan without assumptions on the file system *)

Lemma stat_all_fails w dir names bad :
  In bad names -> mtimeMs w dir bad = None -> stat_all w dir names = None.
Proof.
  intros Hin Hbad. destruct (stat_all w dir names) as [its|] eqn:E; [|done].
  exfalso. unfold stat_all in E. apply mapM_Some in E.
  induction E as [|n it names its Hn _ IH]; [destruct Hin|].
  destruct Hin as [->|Hin]; [|auto]. by rewrite Hbad in Hn.
Qed.

(** X9: whatever the file system answers, a name returned by the scan is
    an entry of the directory with the identifier shape, it passed the time
    filter, and no entry that also passed it is more recent. *)
Theorem findLatest_sound w dir since name :
  findLatestUuidFromRecordingsSince w dir since = Some name ->
  exists entries t,
    readdirSync w dir = Some entries
    /\ In name entries /\ isUuidDirName name = true
    /\ mtimeMs w dir name = Some t /\ is_fresh since (name, t) = true
    /\ forall name' t',
         In name' entries -> isUuidDirName name' = true ->
         mtimeMs w dir name' = Some t' -> is_fresh since (name', t') = true ->
         t' <= t.
Proof.
  unfold findLatestUuidFromRecordingsSince.
  destruct (readdirSync w dir) as [entries|]; [|discriminate].
  destruct (stat_all w dir (List.filter isUuidDirName entries)) as [its|] eqn:Hits;
    [|discriminate].
  destruct (head _) as [[n t]|] eqn:Hh; [|discriminate]. simpl. intros [= ->].
  apply (sort_by_head_max snd) in Hh as [Hin Hmax].
  apply filter_In in Hin as [Hin Hfresh].
  apply (stat_all_In _ _ _ _ Hits) in Hin as [Hin Ht].
  apply filter_In in Hin as [Hin Hshape].
  exists entries, t. repeat split; try done.
  intros name' t' Hin' Hshape' Ht' Hfresh'.
  apply (Hmax (name', t')). apply filter_In. split; [|done].
  apply (stat_all_In _ _ _ _ Hits). split; [|done]. by apply filter_In.
Qed.

Lemma findLatest_sound_witness :
  exists entries t,
    readdirSync Sample.with_recordings "/recordings" = Some entries
    /\ In Sample.U2 entries /\ isUuidDirName Sample.U2 = true
    /\ mtimeMs Sample.with_recordings "/recordings" Sample.U2 = Some t
    /\ is_fresh (Some 100000) (Sample.U2, t) = true
    /\ forall name' t',
         In name' entries -> isUuidDirName name' = true ->
         mtimeMs Sample.with_recordings "/recordings" name' = Some t' ->
         is_fresh (Some 100000) (name', t') = true -> t' <= t.
Proof.
  apply (findLatest_sound Sample.with_recordings "/recordings" (Some 100000) Sample.U2).
  vm_compute. reflexivity.
Defined.

(** X10: every failure of the file system is swallowed: when the directory
    cannot be read, or one identifier-shaped entry cannot be stat'ed, the
    scan returns nothing, even if another entry would qualify. *)
Theorem findLatest_swallows_errors w dir since :
  (readdirSync w dir = None -> findLatestUuidFromRecordingsSince w dir since = None)
  /\ (forall entries bad,
        readdirSync w dir = Some entries ->
        In bad entries -> isUuidDirName bad = true -> mtimeMs w dir bad = None ->
        findLatestUuidFromRecordingsSince w dir since = None).
Proof.
  unfold findLatestUuidFromRecordingsSince. split.
  - by intros ->.
  - intros entries bad -> Hin Hshape Hbad.
    rewrite (stat_all_fails w dir _ bad); [done| |done].
    apply filter_In. done.
Qed.

Lemma findLatest_swallows_errors_witness :
  findLatestUuidFromRecordingsSince Dangling.world "/recordings" (Some 100000) = None
  /\ is_Some (mtimeMs Dangling.world "/recordings" Sample.U1).
Proof.
  split; [|vm_compute; eauto].
  destruct (findLatest_swallows_errors Dangling.world "/recordings" (Some 100000))
    as [_ H].
  apply (H [Sample.U1; Sample.U2] Sample.U2); try (vm_compute; reflexivity).
  simpl. auto.
Defined.

(** ** Patches compose *)

Lemma ovr_assoc {A} (a b c : option A) : ovr a (ovr b c) = ovr (ovr a b) c.
Proof. by destruct a. Qed.

Lemma merge_merge now j p1 p2 :
  Job.merge now (Job.merge now j p1) p2 = Job.merge now j (patch_then p1 p2).
Proof.
  unfold Job.merge, patch_then. cbn [Job.id Job.pid Job.status Job.createdAt Job.updatedAt
    Job.startedAt Job.meeting_url Job.bot_name Job.extra Job.uuid Job.containerName
    Job.hostPort8080 Job.recordings Job.recordingsDir Job.exitCode Job.signal Job.error
    Job.logs Job.clients].
  rewrite !ovr_assoc. f_equal.
  destruct (Job.updatedAt p2), (Job.updatedAt p1), (Job.updatedAt j); done.
Qed.

(** X11: two [setJob] calls in a row on the same job store what one call
    with the two patches merged (the later one winning key by key) stores,
    and writing the same patch twice, as [onData] does with the container
    name, is writing it once. *)
Theorem setJob_patches_compose now id p1 p2 st :
  setJob_ now id p2 (setJob_ now id p1 st) = setJob_ now id (patch_then p1 p2) st
  /\ setJob_ now id p1 (setJob_ now id p1 st) = setJob_ now id p1 st.
Proof.
  assert (H : forall q1 q2,
             setJob_ now id q2 (setJob_ now id q1 st)
             = setJob_ now id (patch_then q1 q2) st).
  { intros q1 q2.
    pose proof (getJob_setJob_ now id q1 st) as Hget.
    unfold setJob_, setJob in *. cbn [fst] in *. rewrite Hget.
    unfold set_JOBS. cbn [JOBS CHILDREN CLOSURES SINKS FX].
    by rewrite insert_insert_eq, merge_merge. }
  split; [apply H|]. rewrite H. f_equal.
  destruct p1. unfold patch_then. simpl. f_equal;
    match goal with |- ovr ?x ?x = ?x => by destruct x end.
Qed.

(** ** What [stripAnsi] does to a line *)

Lemma remove_go_sublist ci r inp : forall skip, sublist (remove_go ci r skip inp) inp.
Proof.
  induction inp as [|c tl IH]; intros skip; simpl; [constructor|].
  destruct skip as [|n]; [|apply sublist_cons, IH].
  destruct (exec_at ci r (c :: tl)) as [x|]; [|apply sublist_skip, IH].
  destruct (_ - _)%nat; [apply sublist_skip | apply sublist_cons]; apply IH.
Qed.

(** X13: [stripAnsi] only deletes: the characters it returns are
    characters of the line, in their order; so the result is never longer
    than the line, and a line without escape character is returned
    unchanged. *)
Theorem stripAnsi_only_deletes s :
  sublist (list_ascii_of_string (stripAnsi s)) (list_ascii_of_string s)
  /\ (String.length (stripAnsi s) <= String.length s)%nat
  /\ ((ESC ∉ list_ascii_of_string s) -> stripAnsi s = s).
Proof.
  assert (Hsub : sublist (list_ascii_of_string (stripAnsi s)) (list_ascii_of_string s)).
  { unfold stripAnsi, remove_all. rewrite list_ascii_of_string_of_list_ascii.
    apply remove_go_sublist. }
  split; [done|]. split.
  - apply sublist_length in Hsub.
    rewrite <- (string_of_list_ascii_of_string s) at 2.
    rewrite <- (string_of_list_ascii_of_string (stripAnsi s)).
    by rewrite !string_length_of_list.
  - intros H. by apply stripAnsi_fixpoint, no_esc_no_sgr.
Qed.

(** X14: when every escape character of the line begins a complete SGR
    sequence, one pass of [stripAnsi] leaves no escape character, and a
    second pass changes nothing. *)
Theorem stripAnsi_clears_complete_escapes s :
  escapes_complete s ->
  (ESC ∉ list_ascii_of_string (stripAnsi s))
  /\ has_sgr (stripAnsi s) = false
  /\ stripAnsi (stripAnsi s) = stripAnsi s.
Proof.
  intros Hwf.
  assert (H : ESC ∉ list_ascii_of_string (stripAnsi s)).
  { unfold stripAnsi, remove_all. rewrite list_ascii_of_string_of_list_ascii.
    apply remove_go_drops_escapes. intros pre suf Heq _. by apply (Hwf pre suf). }
  split; [done|]. split; [by apply no_esc_no_sgr|].
  by apply stripAnsi_fixpoint, no_esc_no_sgr.
Qed.

Lemma stripAnsi_clears_complete_escapes_witness :
  (ESC ∉ list_ascii_of_string (stripAnsi Nested.coloured))
  /\ has_sgr (stripAnsi Nested.coloured) = false
  /\ stripAnsi (stripAnsi Nested.coloured) = stripAnsi Nested.coloured.
Proof.
  apply (stripAnsi_clears_complete_escapes Nested.coloured).
  exact coloured_line_complete.
Defined.

(** ** Endpoint and run script *)

Lemma https_prefixed s :
  "https://" +:+ s
  = String "h" (String "t" (String "t" (String "p" (String "s" (String ":"
      (String "/" (String "/" s))))))).
Proof. reflexivity. Qed.

(** X15: [asEndpointUrl] answers [undefined] exactly for a missing or
    empty value; any other answer begins with [http://] or [https://] in
    either case, keeps the value as its end, and is left as it is when
    given to [asEndpointUrl] again. *)
Theorem asEndpointUrl_normalises v :
  (asEndpointUrl v = None <-> truthy_str v = false)
  /\ (forall s, asEndpointUrl v = Some s ->
        test_prefix true HTTP_SCHEME s = true
        /\ (exists v0, v = Some v0 /\ (s = v0 \/ s = "https://" +:+ v0))
        /\ asEndpointUrl (Some s) = Some s).
Proof.
  destruct v as [v0|]; unfold asEndpointUrl; cbn [from_option id default].
  2:{ cbn [truthy_str]. split; [done | discriminate]. }
  destruct (truthy_str (Some v0)) eqn:Hv; [|split; [done | discriminate]].
  split; [split; discriminate|]. intros s [= <-].
  destruct (test_prefix true HTTP_SCHEME v0) eqn:Ht.
  - split; [done|]. split; [eauto|]. by rewrite Hv, Ht.
  - assert (Hp : test_prefix true HTTP_SCHEME ("https://" +:+ v0) = true).
    { rewrite https_prefixed. apply bool_decide_eq_true. vm_compute. eauto. }
    split; [done|]. split; [eauto|]. rewrite Hp.
    by rewrite https_prefixed.
Qed.

(** X16: a submission is answered in one of three ways, decided by the
    request and the file system alone: without meeting url, a bad request;
    with one and no candidate of the run script on disk, script missing;
    otherwise the job is started under the new id.  In the first two cases
    the registry, the children and the effects are as before. *)
Theorem submit_three_ways existsSync tried dirOf now newId child req st :
  tried <> [] ->
  let out := submit existsSync tried dirOf now newId child req st in
  (snd out = BadRequest <-> truthy_str (req_meeting_url req) = false)
  /\ (snd out = ScriptMissing <->
        truthy_str (req_meeting_url req) = true
        /\ Forall (fun p => existsSync p = false) tried)
  /\ (snd out = Started newId (child_pid child) <->
        truthy_str (req_meeting_url req) = true
        /\ Exists (fun p => existsSync p = true) tried)
  /\ (snd out <> Started newId (child_pid child) -> fst out = st).
Proof.
  intros Hne out. subst out. unfold submit, resolveRunScript, post_jobs.
  destruct (truthy_str (req_meeting_url req)) eqn:Hu; cbn [negb].
  2:{ cbn [fst snd]. repeat split; try done; try (by intros [? ?]). }
  destruct (List.find existsSync tried) as [p|] eqn:Hf.
  - apply find_some in Hf as [Hin Hp]. cbn [from_option id]. rewrite Hp. cbn [negb fst snd].
    assert (Hex : Exists (fun p => existsSync p = true) tried).
    { apply List.Exists_exists. by exists p. }
    repeat split; try done.
    intros [_ Hall]. rewrite List.Forall_forall in Hall.
    specialize (Hall p Hin). congruence.
  - pose proof (find_none _ _ Hf) as Hnone.
    assert (Hall : Forall (fun p => existsSync p = false) tried).
    { by apply List.Forall_forall. }
    destruct tried as [|t0 tl]; [done|]. cbn [head from_option id].
    rewrite (Hnone t0 (or_introl eq_refl)). cbn [negb fst snd].
    repeat split; try done.
    intros [_ Hex]. apply List.Exists_exists in Hex as (p & Hp & Hpe).
    rewrite List.Forall_forall in Hall. specialize (Hall p Hp). congruence.
Qed.

Lemma submit_three_ways_witness :
  let out := submit (String.eqb "/meet-teams-bot/run_bot.sh")
                    ["/app/run_bot.sh"; "/meet-teams-bot/run_bot.sh"]
                    (fun p => p +:+ "/recordings") 1000 "j" (mkChild (Some 42))
                    Sample.request Sample.boot in
  (snd out = BadRequest <-> truthy_str (req_meeting_url Sample.request) = false)
  /\ (snd out = ScriptMissing <->
        truthy_str (req_meeting_url Sample.request) = true
        /\ Forall (fun p => String.eqb "/meet-teams-bot/run_bot.sh" p = false)
                  ["/app/run_bot.sh"; "/meet-teams-bot/run_bot.sh"])
  /\ (snd out = Started "j" (child_pid (mkChild (Some 42))) <->
        truthy_str (req_meeting_url Sample.request) = true
        /\ Exists (fun p => String.eqb "/meet-teams-bot/run_bot.sh" p = true)
                  ["/app/run_bot.sh"; "/meet-teams-bot/run_bot.sh"])
  /\ (snd out <> Started "j" (child_pid (mkChild (Some 42))) -> fst out = Sample.boot).
Proof.
  apply (submit_three_ways (String.eqb "/meet-teams-bot/run_bot.sh")
           ["/app/run_bot.sh"; "/meet-teams-bot/run_bot.sh"]
           (fun p => p +:+ "/recordings") 1000 "j" (mkChild (Some 42))
           Sample.request Sample.boot).
  discriminate.
Defined.

(** ** Presigning *)

Lemma rep_greedy_run {R} p min max pre r (k : chars -> option R) x :
  Forall (fun c => p c = true) pre ->
  (min <= length pre)%nat -> max = None ->
  match r with [] => True | c :: _ => p c = false end ->
  k r = Some x ->
  rep_greedy p min max (pre ++ r) k = Some x.
Proof.
  intros Hall Hmin -> Hr Hk. revert min Hmin.
  induction Hall as [|c pre Hc _ IH]; intros min Hmin; simpl in *.
  - assert (min = O) as -> by lia.
    destruct r as [|c tl]; simpl; [done|]. rewrite Hr. simpl. done.
  - rewrite Hc. simpl. rewrite (IH (Nat.pred min)); [done | lia].
Qed.

Lemma notslash_mem c : class_mem true notslash c = negb (Ascii.eqb c "/").
Proof. destruct c as [[] [] [] [] [] [] [] []]; reflexivity. Qed.

Lemma dot_mem c : class_mem true dot c = negb (Ascii.eqb c LF) && negb (Ascii.eqb c CR).
Proof. destruct c as [[] [] [] [] [] [] [] []]; reflexivity. Qed.

Lemma separator_mem c :
  class_mem false separator c = Ascii.eqb c "/" || Ascii.eqb c BACKSLASH.
Proof. destruct c as [[] [] [] [] [] [] [] []]; reflexivity. Qed.


Lemma s3_accepts upper lb lk :
  Forall (fun c => class_mem true notslash c = true) lb -> (1 <= length lb)%nat ->
  Forall (fun c => class_mem true dot c = true) lk -> (1 <= length lk)%nat ->
  run_groups true S3_URI
             (list_ascii_of_string (s3_scheme upper) ++ lb ++ "/"%char :: lk) [] at_end
  = Some [lb; lk].
Proof.
  intros Hb Hnb Hk Hnk. unfold S3_URI. cbn [run_groups].
  assert (Hs : strip_prefix true (list_ascii_of_string "s3://")
                 (list_ascii_of_string (s3_scheme upper) ++ lb ++ "/"%char :: lk)
               = Some (lb ++ "/"%char :: lk)) by (by destruct upper).
  rewrite Hs. apply rep_greedy_run; [done | done | done | reflexivity |].
  cbn [list_ascii_of_string strip_prefix].
  change (char_eq true "/" "/") with true. cbn match.
  rewrite length_app, Nat.add_sub, take_app_length.
  pose proof (rep_greedy_run (class_mem true dot) 1 None lk []
                (fun rest => at_end rest (([] ++ [lb]) ++ [take (length lk - length rest) lk]))
                [lb; lk] Hk Hnk eq_refl I) as H.
  rewrite app_nil_r in H. apply H.
  cbn [length at_end app]. by rewrite Nat.sub_0_r, firstn_all.
Qed.






Lemma notslash_Forall l :
  Forall (fun c => class_mem true notslash c = true) l <-> "/"%char ∉ l.
Proof.
  rewrite Forall_forall. split.
  - intros H Hin. specialize (H _ Hin). by rewrite notslash_mem in H.
  - intros H c Hc. rewrite notslash_mem. destruct (Ascii.eqb_spec c "/"); [by subst | done].
Qed.

Lemma dot_Forall l :
  Forall (fun c => class_mem true dot c = true) l <-> (LF ∉ l) /\ (CR ∉ l).
Proof.
  rewrite Forall_forall. split.
  - intros H. split; intros Hin; specialize (H _ Hin); by rewrite dot_mem in H.
  - intros [H1 H2] c Hc. rewrite dot_mem.
    destruct (Ascii.eqb_spec c LF); [by subst|]. by destruct (Ascii.eqb_spec c CR); [subst|].
Qed.

Lemma nonempty_list s : s <> EmptyString <-> (1 <= length (list_ascii_of_string s))%nat.
Proof. destruct s; simpl; split; (done || lia). Qed.


Lemma isUuidDirName_shaped u : isUuidDirName u = true -> shaped (list_ascii_of_string u).
Proof.
  unfold isUuidDirName, test_whole. cbn [Regex.run].
  destruct (rep_greedy _ _ _ _ _) as [x|] eqn:E; [|discriminate]. intros _.
  apply rep_greedy_split in E as (pre & r & Heq & Hall & Hmin & Hmax & Hk).
  destruct r; [|discriminate]. rewrite app_nil_r in Heq. rewrite Heq.
  specialize (Hmax _ eq_refl). split; [lia | done].
Qed.

Lemma shaped_no_slash cs : shaped cs -> "/"%char ∉ cs.
Proof.
  intros [_ Hall] Hin. rewrite Forall_forall in Hall. by specialize (Hall _ Hin).
Qed.

Lemma search_class_none c cs :
  search false (Rep c 1 (Some 1%nat)) cs = None ->
  Forall (fun a => class_mem false c a = false) cs.
Proof.
  induction cs as [|a tl IH]; [constructor|]. cbn [search].
  destruct (exec_at false (Rep c 1 (Some 1%nat)) (a :: tl)) eqn:E; [discriminate|].
  intros H. constructor; [|by apply IH].
  unfold exec_at in E. cbn [Regex.run rep_greedy] in E.
  destruct (class_mem false c a); [|done]. exfalso.
  cbn in E. destruct tl as [|b tl]; cbn in E; [discriminate|].
  rewrite andb_false_r in E. discriminate.
Qed.

Lemma split_on_plain sep l : sep ∉ l -> split_on sep l = [l].
Proof.
  induction l as [|c l IH]; [done|]. intros H. apply not_elem_of_cons in H as [Hc Hl].
  simpl. destruct (Ascii.eqb_spec c sep); [by subst|]. by rewrite (IH Hl).
Qed.

Lemma split_on_app sep l1 l2 :
  sep ∉ l1 -> split_on sep (l1 ++ sep :: l2) = l1 :: split_on sep l2.
Proof.
  induction l1 as [|c l IH]; intros H; simpl.
  - by rewrite Ascii.eqb_refl.
  - apply not_elem_of_cons in H as [Hc Hl].
    destruct (Ascii.eqb_spec c sep); [by subst|]. by rewrite (IH Hl).
Qed.

Lemma segments_two u f :
  "/"%char ∉ list_ascii_of_string u -> "/"%char ∉ list_ascii_of_string f ->
  segments (u +:+ "/" +:+ f) = [u; f].
Proof.
  intros Hu Hf. unfold segments. rewrite !list_ascii_app.
  change (list_ascii_of_string "/" ++ list_ascii_of_string f)
    with ("/"%char :: list_ascii_of_string f).
  rewrite (split_on_app _ _ _ Hu), (split_on_plain _ _ Hf). cbn [fmap list_fmap].
  by rewrite !string_of_list_ascii_of_string.
Qed.

Lemma validateFilename_no_separator f :
  validateFilename (Some f) = None ->
  f <> EmptyString
  /\ ("/"%char ∉ list_ascii_of_string f) /\ (BACKSLASH ∉ list_ascii_of_string f)
  /\ includes (list_ascii_of_string "..") (list_ascii_of_string f) = false.
Proof.
  unfold validateFilename. cbn [from_option id].
  destruct (truthy_str (Some f)) eqn:Ht; [|discriminate]. cbn [negb].
  destruct (bool_decide _) eqn:Hs; [discriminate|].
  destruct (includes _ _) eqn:Hi; [discriminate|]. intros _.
  apply bool_decide_eq_false in Hs.
  assert (Hnone : search false (Rep separator 1 (Some 1%nat)) (list_ascii_of_string f) = None).
  { destruct (search _ _ _); [destruct Hs; eauto | done]. }
  apply search_class_none in Hnone. rewrite Forall_forall in Hnone.
  split; [by intros ->|]. repeat split; try done;
    intros Hin; specialize (Hnone _ Hin); by rewrite separator_mem in Hnone.
Qed.

(** X18: a presign request with [uuid] and [filename] that is accepted is
    signed for the bucket of the environment and for a key of exactly two
    segments, the uuid and the file name: the uuid has the identifier shape,
    the file name is not empty and holds no slash, no backslash and no
    [..]; the [s3] and [uri] parameters have no part in it. *)
Theorem presign_stays_in_uuid_folder ak sk bucketEnv q tgt :
  truthy_str (q_uuid q) = true -> truthy_str (q_filename q) = true ->
  presign_target ak sk bucketEnv q = inr tgt ->
  exists u f,
    q_uuid q = Some u /\ q_filename q = Some f
    /\ t_bucket tgt = bucketEnv /\ bucketEnv <> EmptyString
    /\ t_key tgt = u +:+ "/" +:+ f
    /\ segments (t_key tgt) = [u; f]
    /\ isUuidDirName u = true
    /\ f <> EmptyString
    /\ (BACKSLASH ∉ list_ascii_of_string f)
    /\ includes (list_ascii_of_string "..") (list_ascii_of_string f) = false.
Proof.
  intros Hu Hf. unfold presign_target. rewrite Hu, Hf. cbn [andb].
  destruct (negb (truthy_str ak) || negb (truthy_str sk)); [discriminate|].
  destruct (nonempty bucketEnv) eqn:Hb; [|discriminate]. cbn [negb].
  destruct (validateUuid (q_uuid q)) eqn:Hv; [|discriminate]. cbn [negb].
  destruct (validateFilename (q_filename q)) eqn:Hn; [discriminate|].
  intros [= <-]. cbn [t_bucket t_key].
  destruct (q_uuid q) as [u|]; [|discriminate].
  destruct (q_filename q) as [f|]; [|discriminate]. cbn [from_option id].
  unfold validateUuid in Hv. cbn [from_option id] in Hv.
  apply andb_true_iff in Hv as [_ Hv].
  apply validateFilename_no_separator in Hn as (Hne & Hs & Hbs & Hdd).
  exists u, f. repeat split; try done.
  - intros ->. discriminate.
  - apply segments_two; [|done]. by apply shaped_no_slash, isUuidDirName_shaped.
Qed.

Lemma presign_stays_in_uuid_folder_witness :
  exists u f,
    Some Sample.U1 = Some u /\ Some "video.mp4" = Some f
    /\ "recordings-bucket" = "recordings-bucket" /\ "recordings-bucket" <> EmptyString
    /\ Sample.U1 +:+ "/video.mp4" = u +:+ "/" +:+ f
    /\ segments (Sample.U1 +:+ "/video.mp4") = [u; f]
    /\ isUuidDirName u = true
    /\ f <> EmptyString
    /\ (BACKSLASH ∉ list_ascii_of_string f)
    /\ includes (list_ascii_of_string "..") (list_ascii_of_string f) = false.
Proof.
  apply (presign_stays_in_uuid_folder (Some "AKIA") (Some "secret") "recordings-bucket"
           (mkQuery (Some Sample.U1) (Some "video.mp4") (Some "s3://other/x") None)
           (mkTarget "recordings-bucket" (Sample.U1 +:+ "/video.mp4") (Some "video.mp4")));
    vm_compute; reflexivity.
Defined.

(** X19: a presign request without [uuid] or without [filename] is signed
    for the bucket and the key its [s3] parameter names ([uri] when [s3] is
    missing or empty), whatever the bucket of the environment is. *)
Theorem presign_legacy_follows_uri ak sk bucketEnv q upper b k :
  truthy_str ak = true -> truthy_str sk = true ->
  truthy_str (q_uuid q) && truthy_str (q_filename q) = false ->
  or_opt (q_s3 q) (q_uri q) = Some (s3_scheme upper +:+ b +:+ "/" +:+ k) ->
  b <> EmptyString -> ("/"%char ∉ list_ascii_of_string b) ->
  k <> EmptyString ->
  (LF ∉ list_ascii_of_string k) -> (CR ∉ list_ascii_of_string k) ->
  presign_target ak sk bucketEnv q = inr (mkTarget b k (last (segments k))).
Proof.
  intros Hak Hsk Hmode Huri Hb Hbs Hk Hk1 Hk2.
  unfold presign_target. rewrite Hak, Hsk, Hmode, Huri. cbn [negb orb].
  assert (Ht : truthy_str (Some (s3_scheme upper +:+ b +:+ "/" +:+ k)) = true)
    by (by destruct upper).
  unfold or_str, parseS3Uri. rewrite Ht. cbn [from_option id negb]. rewrite Ht. cbn [negb].
  unfold match_whole. rewrite !list_ascii_app.
  change (list_ascii_of_string "/" ++ list_ascii_of_string k)
    with ("/"%char :: list_ascii_of_string k).
  assert (Hacc := s3_accepts upper (list_ascii_of_string b) (list_ascii_of_string k)
                    (proj2 (notslash_Forall _) Hbs) (proj1 (nonempty_list _) Hb)
                    (proj2 (dot_Forall _) (conj Hk1 Hk2)) (proj1 (nonempty_list _) Hk)).
  unfold at_end in Hacc. rewrite Hacc.
  by rewrite !string_of_list_ascii_of_string.
Qed.

Lemma presign_legacy_follows_uri_witness :
  presign_target (Some "AKIA") (Some "secret") "recordings-bucket"
                 (mkQuery None (Some "video.mp4") (Some "s3://other/a/b.mp4") None)
  = inr (mkTarget "other" "a/b.mp4" (last (segments "a/b.mp4")))
  /\ last (segments "a/b.mp4") = Some "b.mp4".
Proof.
  split; [|reflexivity].
  apply (presign_legacy_follows_uri (Some "AKIA") (Some "secret") "recordings-bucket"
           (mkQuery None (Some "video.mp4") (Some "s3://other/a/b.mp4") None)
           false "other" "a/b.mp4");
    try reflexivity; try discriminate;
    apply (bool_decide_unpack _); vm_compute; exact I.
Defined.

(** ** Recorded identifiers are well formed *)

Lemma evolves_well_formed j j' :
  evolves handler_patch j j' -> well_formed_uuid j -> well_formed_uuid j'.
Proof.
  induction 1 as [j|j j' now patch _ IH HP|j j' now line _ IH]; intros Hj; [done| |].
  - destruct HP as (_ & _ & _ & _ & _ & _ & _ & _ & _ & _ & _ & Hshape).
    intros u. simpl. destruct (Job.uuid patch) as [v|]; simpl.
    + intros [= ->]. by apply Hshape.
    + by apply IH.
  - intros u. simpl. by apply IH.
Qed.

(** X20: the identifier recorded for a job always has the identifier shape,
    whether it came from an output line, from the container name or from
    the scan of the recordings directory: if the job starts without
    identifier, or with a well-formed one, then after any events its
    identifier, if any, passes [validateUuid]. *)
Theorem recorded_uuid_well_formed w cfg id evs st :
  well_formed_uuid (getJob id st) ->
  let j' := getJob id (replay w cfg id evs st) in
  well_formed_uuid j'
  /\ (truthy_str (Job.uuid j') = true -> validateUuid (Job.uuid j') = true).
Proof.
  intros Hwf j'.
  assert (H : well_formed_uuid j').
  { apply (evolves_well_formed (getJob id st)); [|done].
    apply (job_step_replay w cfg id st evs st), job_step_refl. }
  split; [done|]. intros Ht. unfold validateUuid. rewrite Ht.
  destruct (Job.uuid j') as [u|] eqn:Hu; [|discriminate]. cbn [from_option andb].
  by apply H.
Qed.

Lemma recorded_uuid_well_formed_witness :
  let evs := [(2000, OpData "[bot:stdout]" ("session ID: " +:+ Sample.U1));
              (2500, OpExit (Some 0) None); (3000, OpClose 3500 (Some 0) None)] in
  let j' := getJob "j" (replay Sample.silent Sample.cfg "j" evs Sample.st_running) in
  well_formed_uuid j'
  /\ (truthy_str (Job.uuid j') = true -> validateUuid (Job.uuid j') = true).
Proof.
  cbv zeta. apply (recorded_uuid_well_formed Sample.silent Sample.cfg "j").
  intros u. vm_compute. discriminate.
Defined.

(** ** The key check and the configured base *)

(** X21: the service only starts with a key that is not empty; then, on
    every route but the health check and the log stream, the key check lets
    a request pass exactly when it carries the configured key, and answers
    401 to a request without key, with an empty key or with another key. *)
Theorem key_check_exact cfg r key :
  starts_up cfg = true ->
  r <> RHealth -> (forall id, r <> RLogs id) ->
  (api_key_check cfg (path_of r) key = Next <-> key = Some (API_KEY cfg))
  /\ (api_key_check cfg (path_of r) key = Unauthorized <-> key <> Some (API_KEY cfg)).
Proof.
  intros Hup Hh Hl.
  assert (H0 : api_key_check cfg (path_of r) None = Unauthorized)
    by (by apply key_check_guards_route).
  unfold api_key_check in *.
  destruct (String.eqb (path_of r) "/health" || _); [discriminate|]. clear H0.
  destruct (decide (key = Some (API_KEY cfg))) as [->|Hne].
  - rewrite bool_decide_eq_true_2 by done. unfold starts_up, nonempty in Hup.
    cbn [truthy_str]. rewrite Hup. cbn [negb orb].
    split; split; done.
  - rewrite (bool_decide_eq_false_2 _ Hne). cbn [negb]. rewrite orb_true_r.
    split; split; try done.
Qed.

Lemma key_check_exact_witness :
  ((api_key_check Sample.cfg (path_of (RStop "j")) (Some "secret") = Next
    <-> Some "secret" = Some (API_KEY Sample.cfg))
   /\ (api_key_check Sample.cfg (path_of (RStop "j")) (Some "secret") = Unauthorized
       <-> Some "secret" <> Some (API_KEY Sample.cfg)))
  /\ ((api_key_check Sample.cfg (path_of RSubmit) None = Next
       <-> None = Some (API_KEY Sample.cfg))
      /\ (api_key_check Sample.cfg (path_of RSubmit) None = Unauthorized
          <-> None <> Some (API_KEY Sample.cfg)))
  /\ api_key_check Sample.cfg (path_of (RStop "j")) (Some "secret") = Next
  /\ api_key_check Sample.cfg (path_of RSubmit) None = Unauthorized.
Proof.
  split; [|split].
  - apply (key_check_exact Sample.cfg (RStop "j") (Some "secret"));
      [reflexivity | discriminate | discriminate].
  - apply (key_check_exact Sample.cfg RSubmit None);
      [reflexivity | discriminate | discriminate].
  - split; reflexivity.
Defined.

Lemma drop_while_rev_replicate {A} (p : A -> bool) x n : forall l,
  p x = true ->
  drop_while p (rev (l ++ replicate n x)) = drop_while p (rev l).
Proof.
  induction n as [|n IH]; intros l Hx; simpl.
  - by rewrite app_nil_r.
  - rewrite (cons_middle x l), app_assoc, IH by done.
    rewrite rev_app_distr. simpl. by rewrite Hx.
Qed.

Lemma rstrip_slashes_app s n : rstrip_slashes (s +:+ slashes n) = rstrip_slashes s.
Proof.
  unfold rstrip_slashes, slashes.
  rewrite list_ascii_app, list_ascii_of_string_of_list_ascii.
  by rewrite drop_while_rev_replicate.
Qed.

Lemma nonempty_app s t : nonempty s = true -> nonempty (s +:+ t) = true.
Proof. by destruct s. Qed.

(** X22: trailing slashes of [MEET_BOT_BASE] make no difference to a stop
    request: with any number of them added to a base that is not empty, the
    same calls are made and the same answer is given. *)
Theorem stop_ignores_trailing_slashes w cfg cfg' n now id st :
  MEET_BOT_BASE cfg <> EmptyString ->
  MEET_BOT_BASE cfg' = MEET_BOT_BASE cfg +:+ slashes n ->
  ALLOW_DOCKER_STOP cfg' = ALLOW_DOCKER_STOP cfg ->
  stop_handler w cfg' now id st = stop_handler w cfg now id st.
Proof.
  intros Hne Hb Ha.
  assert (Hn : nonempty (MEET_BOT_BASE cfg) = true).
  { unfold nonempty. by destruct (String.eqb_spec (MEET_BOT_BASE cfg) EmptyString). }
  unfold stop_handler, stop_via_base, stop_via_docker_stop.
  by rewrite Ha, Hb, rstrip_slashes_app, (nonempty_app _ _ Hn), Hn.
Qed.

Lemma stop_ignores_trailing_slashes_witness :
  stop_handler Sample.base_up
               (mkConfig "secret" "http://bot:8080///" true 900000 7200000 "/recordings")
               5000 "j" Sample.st_running
  = stop_handler Sample.base_up
               (mkConfig "secret" "http://bot:8080/" true 900000 7200000 "/recordings")
               5000 "j" Sample.st_running.
Proof.
  apply (stop_ignores_trailing_slashes Sample.base_up
           (mkConfig "secret" "http://bot:8080/" true 900000 7200000 "/recordings")
           (mkConfig "secret" "http://bot:8080///" true 900000 7200000 "/recordings")
           2 5000 "j" Sample.st_running); [discriminate | reflexivity | reflexivity].
Defined.
